(** * PDF-ExtractorAI: the extraction run, the summary grouping and the export

    A shallow embedding of the logic of [src/App.tsx],
    [src/components/ExcelSummary.tsx], [src/components/FieldConfig.tsx],
    [src/components/ResultsTable.tsx], [src/services/excelService.ts] and
    [src/services/geminiService.ts], together with the part of JavaScript
    the files lean on: string trimming and case mapping, truthiness,
    [String(v)], plain objects used as maps (own properties, the members
    inherited from [Object.prototype], and the order in which own keys are
    enumerated) and insertion-ordered sets.

    Modelling boundaries.
    - A string stands for a well-formed JavaScript string, written as the
      bytes of its UTF-8 encoding. Equality, concatenation and [includes]
      are those of the byte sequences; [trim] strips the white space and
      line terminators of ECMAScript, whatever their length in bytes.
    - [toLowerCase] and the text of the built-in functions are the engine's:
      the case mapping follows the Unicode version of the engine and the
      text of a built-in function is left to the implementation. They are
      taken from the class [Js.Engine], which asks of [toLowerCase] only
      what every engine does on strings of ASCII characters.
    - A value of a data record is a string, a number or [null], as
      [types.ts] declares; a read of a record also sees the members the
      record inherits from [Object.prototype].
    - React state setters are applied in program order. *)

From stdpp Require Import gmap strings list sorting.
From Stdlib Require Import Ascii NArith.

(** ** JavaScript strings *)

Module Js.

(** The value of a byte. *)
Definition byte (c : ascii) : N := N_of_ascii c.

Definition in_range (lo hi : N) (c : ascii) : bool :=
  ((lo <=? byte c) && (byte c <=? hi))%N.

(** A string of ASCII characters only. *)
Fixpoint is_ascii (s : string) : bool :=
  match s with
  | EmptyString => true
  | String c s' => (byte c <? 128)%N && is_ascii s'
  end.

(** The letters [A-Z] to [a-z]; every other byte is kept. *)
Definition lower_char (c : ascii) : ascii :=
  let n := N_of_ascii c in
  if ((65 <=? n) && (n <=? 90))%N then ascii_of_N (n + 32) else c.

Fixpoint ascii_lower (s : string) : string :=
  match s with
  | EmptyString => EmptyString
  | String c s' => String (lower_char c) (ascii_lower s')
  end.

(** What the program takes from the engine as it is. *)
Class Engine := {
  (** [s.toLowerCase()] *)
  toLowerCase : string → string;
  (** On ASCII characters the Unicode case mapping turns [A-Z] into [a-z]
      and keeps the rest. *)
  toLowerCase_ascii s : is_ascii s = true → toLowerCase s = ascii_lower s;
  (** [String(Object.prototype[k])] for a member [k] of [Object.prototype]:
      for a built-in function, a text of the implementation's choice. *)
  prototype_text : string → string;
}.

(** White space and line terminators of ECMAScript in UTF-8. One byte:
    U+0009 to U+000D and U+0020. Two bytes: U+00A0. Three bytes: U+1680,
    U+2000 to U+200A, U+2028, U+2029, U+202F, U+205F, U+3000 and U+FEFF. *)
Definition white_space2 (a b : ascii) : bool :=
  in_range 194 194 a && in_range 160 160 b.

Definition white_space3 (a b c : ascii) : bool :=
  (in_range 225 225 a && in_range 154 154 b && in_range 128 128 c) ||
  (in_range 226 226 a && in_range 128 128 b &&
     (in_range 128 138 c || in_range 168 169 c || in_range 175 175 c)) ||
  (in_range 226 226 a && in_range 129 129 b && in_range 159 159 c) ||
  (in_range 227 227 a && in_range 128 128 b && in_range 128 128 c) ||
  (in_range 239 239 a && in_range 187 187 b && in_range 191 191 c).

(** Strips the white space a string starts with. With [backwards] the
    string is read from its end, so the bytes of a character come last
    byte first. *)
Fixpoint strip (backwards : bool) (s : string) : string :=
  match s with
  | EmptyString => EmptyString
  | String a s1 =>
      if Ascii.is_space a then strip backwards s1
      else
        match s1 with
        | EmptyString => s
        | String b s2 =>
            if (if backwards then white_space2 b a else white_space2 a b)
            then strip backwards s2
            else
              match s2 with
              | EmptyString => s
              | String c s3 =>
                  if (if backwards then white_space3 c b a
                      else white_space3 a b c)
                  then strip backwards s3
                  else s
              end
        end
  end.

Definition trimStart (s : string) : string := strip false s.

Definition trimEnd (s : string) : string :=
  String.rev (strip true (String.rev s)).

(** [s.trim()] *)
Definition trim (s : string) : string := trimEnd (trimStart s).

Fixpoint startsWith (p s : string) : bool :=
  match p, s with
  | EmptyString, _ => true
  | String a p', String b s' => if decide (a = b) then startsWith p' s' else false
  | String _ _, EmptyString => false
  end.

(** [s.includes(p)] *)
Fixpoint includes (p s : string) : bool :=
  startsWith p s ||
  match s with
  | EmptyString => false
  | String _ s' => includes p s'
  end.

(** [parts.join(sep)] *)
Fixpoint join (sep : string) (parts : list string) : string :=
  match parts with
  | [] => ""
  | [x] => x
  | x :: rest => x +:+ sep +:+ join sep rest
  end.

(** A regular expression literal. Every pattern of the program is a plain
    word or two words of ASCII letters separated by a blank, written with
    the [i] flag and without the [u] flag, so a pattern is its source text
    and [test] is a search for that text in which a letter of [A-Z] and the
    same letter of [a-z] count as equal: without [u], no character beyond
    ASCII is taken for an ASCII letter. *)
Record RegExp := regex_i { source : string }.

(** [p.test(s)] *)
Definition test (p : RegExp) (s : string) : bool :=
  includes (ascii_lower (source p)) (ascii_lower s).

(** A number of a data record. The program computes with no number: it
    asks whether the number is truthy ([v || 'Unknown'], [field && v]) and
    prints it ([String(v)]). A number is carried as these two
    observations; [0] is [{| number_truthy := false; number_text := "0" |}]. *)
Record number := { number_truthy : bool; number_text : string }.

(** [string | number | null] *)
Inductive Value :=
  | VStr (s : string)
  | VNum (n : number)
  | VNull.

(** [String(v)] *)
Definition ToString (v : Value) : string :=
  match v with
  | VStr s => s
  | VNum n => number_text n
  | VNull => "null"
  end.

(** Truthiness of a value. *)
Definition ToBoolean (v : Value) : bool :=
  match v with
  | VStr s => bool_decide (s ≠ "")
  | VNum n => number_truthy n
  | VNull => false
  end.

(** Truthiness of a possibly [undefined] string. *)
Definition truthy_string (s : option string) : bool :=
  match s with
  | Some s => bool_decide (s ≠ "")
  | None => false
  end.

(** A [Set<string>]: members in the order of their first [add]. *)
Definition StringSet := list string.

Definition Set_add (x : string) (s : StringSet) : StringSet :=
  if decide (x ∈ s) then s else s ++ [x].

(** What a function call produces: a value, or a thrown exception. *)
Inductive Completion (A : Type) :=
  | Normal (a : A)
  | Throw (e : string).
Global Arguments Normal {A} a.
Global Arguments Throw {A} e.

Definition bind {A B} (c : Completion A) (k : A → Completion B) : Completion B :=
  match c with
  | Normal a => k a
  | Throw e => Throw e
  end.

(** [l.forEach(x => { acc = body(acc, x) })] with a body that may throw. *)
Fixpoint forEach {A S} (body : S → A → Completion S) (l : list A) (s : S)
  : Completion S :=
  match l with
  | [] => Normal s
  | x :: l' => bind (body s x) (forEach body l')
  end.

(** An engine to run the program on samples. Its only letters are those
    of ASCII, so that on the samples, which are written in ASCII, it computes
    what every engine computes; its built-in functions print as in V8. *)
Definition native_code (name : string) : string :=
  "function " +:+ name +:+ "() { [native code] }".

Definition reference : Engine :=
  {| toLowerCase := ascii_lower;
     toLowerCase_ascii s _ := eq_refl;
     prototype_text k :=
       if decide (k = "__proto__") then "[object Object]"
       else if decide (k = "constructor") then native_code "Object"
       else native_code k |}.

End Js.

(** ** Plain objects used as maps *)

Module JsObject.

(** The own properties of an object, in the order they were created. *)
Definition t (V : Type) := list (string * V).

Fixpoint own {V} (k : string) (o : t V) : option V :=
  match o with
  | [] => None
  | (k', v) :: o' => if decide (k' = k) then Some v else own k o'
  end.

(** [o[k] = v]: an existing property keeps its place, a new one goes last. *)
Fixpoint set {V} (k : string) (v : V) (o : t V) : t V :=
  match o with
  | [] => [(k, v)]
  | (k', v') :: o' =>
      if decide (k' = k) then (k, v) :: o' else (k', v') :: set k v o'
  end.

(** The members every object literal inherits from [Object.prototype]. *)
Definition prototype_names : list string :=
  [ "constructor"; "__defineGetter__"; "__defineSetter__"; "hasOwnProperty";
    "__lookupGetter__"; "__lookupSetter__"; "isPrototypeOf";
    "propertyIsEnumerable"; "toString"; "valueOf"; "__proto__";
    "toLocaleString" ].

Definition inherited (k : string) : bool := bool_decide (k ∈ prototype_names).

(** The result of reading [o[k]] on an object literal. *)
Inductive Lookup (V : Type) :=
  | Own (v : V)
  | Inherited
  | Undefined.
Global Arguments Own {V} v.
Global Arguments Inherited {V}.
Global Arguments Undefined {V}.

Definition Get {V} (o : t V) (k : string) : Lookup V :=
  match own k o with
  | Some v => Own v
  | None => if inherited k then Inherited else Undefined
  end.

(** What the program observes of a value read from a data record: whether
    it is truthy, and [String] of it. The inherited members are functions,
    and [Object.prototype] itself under [__proto__]: all truthy. *)
Definition truthy (l : Lookup Js.Value) : bool :=
  match l with
  | Own v => Js.ToBoolean v
  | Inherited => true
  | Undefined => false
  end.

Definition text `{!Js.Engine} (k : string) (l : Lookup Js.Value) : string :=
  match l with
  | Own v => Js.ToString v
  | Inherited => Js.prototype_text k
  | Undefined => "undefined"
  end.

Fixpoint digits (acc : N) (s : string) : option N :=
  match s with
  | EmptyString => Some acc
  | String c s' =>
      match Ascii.is_nat c with
      | Some d => digits (10 * acc + N.of_nat d)%N s'
      | None => None
      end
  end.

(** A key is an array index when it is the decimal notation, without
    leading zero, of an integer below [2^32 - 1]. *)
Definition array_index (k : string) : option N :=
  match k with
  | EmptyString => None
  | String "0" EmptyString => Some 0%N
  | String "0" _ => None
  | _ =>
      match digits 0 k with
      | Some n => if (n <? 4294967295)%N then Some n else None
      | None => None
      end
  end.

Section key_order.
Context {A : Type} (key : A → string).

Fixpoint insert_index (n : N) (x : A) (l : list (N * A)) : list (N * A) :=
  match l with
  | [] => [(n, x)]
  | (m, y) :: l' =>
      if (n <=? m)%N then (n, x) :: l else (m, y) :: insert_index n x l'
  end.

Fixpoint index_part (l : list A) : list (N * A) :=
  match l with
  | [] => []
  | x :: l' =>
      match array_index (key x) with
      | Some n => insert_index n x (index_part l')
      | None => index_part l'
      end
  end.

Definition string_part (l : list A) : list A :=
  filter (λ x, array_index (key x) = None) l.

(** The enumeration order of own properties: the array indices in
    ascending numeric order, then the other keys in creation order. *)
Definition own_order (l : list A) : list A :=
  (snd <$> index_part l) ++ string_part l.
End key_order.

(** The enumeration order applied to bare keys. *)
Definition key_order (ks : list string) : list string := own_order (λ k, k) ks.

(** [Object.entries(o)] *)
Definition entries {V} (o : t V) : list (string * V) := own_order fst o.

(** [Object.keys(o)] *)
Definition keys {V} (o : t V) : list string := fst <$> entries o.

(** [{...o}]: the own properties copied in enumeration order. *)
Definition spread {V} (o : t V) : t V := entries o.

End JsObject.

(** ** [types.ts] *)

Module Status.
(** ['pending' | 'processing' | 'success' | 'error'] *)
Inductive t := pending | processing | success | error.

Global Instance eq_dec : EqDecision t.
Proof. solve_decision. Defined.

Definition terminal (s : t) : bool :=
  match s with
  | success | error => true
  | pending | processing => false
  end.
End Status.

(** [Record<string, string | number | null>] *)
Definition Data := JsObject.t Js.Value.

(** [interface ExtractedData] *)
Record ExtractedData := {
  id : string;
  fileName : string;
  status : Status.t;
  data : option Data;
  error : option string;
}.

(** [{ ...item, status: s }] *)
Definition with_status (s : Status.t) (item : ExtractedData) : ExtractedData :=
  {| id := id item; fileName := fileName item; status := s;
     data := data item; error := error item |}.

(** [{ ...item, status: 'success', data: d }] *)
Definition with_success (d : Data) (item : ExtractedData) : ExtractedData :=
  {| id := id item; fileName := fileName item; status := Status.success;
     data := Some d; error := error item |}.

(** [{ ...item, status: 'error', error: e }] *)
Definition with_error (e : string) (item : ExtractedData) : ExtractedData :=
  {| id := id item; fileName := fileName item; status := Status.error;
     data := data item; error := Some e |}.

(** [{ ...item, data: d }] *)
Definition with_data (d : Data) (item : ExtractedData) : ExtractedData :=
  {| id := id item; fileName := fileName item; status := status item;
     data := Some d; error := error item |}.

(** [{ id: i, fileName: n, status: 'pending' }] *)
Definition pending_item (i n : string) : ExtractedData :=
  {| id := i; fileName := n; status := Status.pending;
     data := None; error := None |}.

(** ['idle' | 'extracting' | 'completed'] *)
Inductive ProcessingStatus := idle | extracting | completed.

Global Instance ProcessingStatus_eq_dec : EqDecision ProcessingStatus.
Proof. solve_decision. Defined.

(** A browser [File]: the program reads its [name]; the rest goes to the
    extraction service. *)
Record File := { name : string; contents : string }.

(** What awaiting [extractDataFromPdf(file, fields)] gives: the parsed
    record, or a thrown object whose [message] may be missing
    ([geminiService.ts] throws [Error]s and rejects with the reader's event
    object). *)
Inductive Outcome :=
  | Returned (d : Data)
  | Threw (message : option string).

(** The two effectful operations [App.tsx] calls, threading the state of
    the outside world (the random generator, the remote service). *)
Class Services (World : Type) := {
  generateId : World → string * World;
  extractDataFromPdf : File → list string → World → Outcome * World;
}.

(** ** [App.tsx] *)

Module App.

Inductive Tab := all | selected.

(** The [useState] cells of the component. *)
Record State := {
  files : list File;
  fields : list string;
  results : list ExtractedData;
  status : ProcessingStatus;
  selectedIds : gset string;
  activeTab : Tab;
}.

Definition setFiles (x : list File) (st : State) : State :=
  {| files := x; fields := fields st; results := results st;
     status := status st; selectedIds := selectedIds st;
     activeTab := activeTab st |}.

Definition setResults (x : list ExtractedData) (st : State) : State :=
  {| files := files st; fields := fields st; results := x;
     status := status st; selectedIds := selectedIds st;
     activeTab := activeTab st |}.

Definition setStatus (x : ProcessingStatus) (st : State) : State :=
  {| files := files st; fields := fields st; results := results st;
     status := x; selectedIds := selectedIds st;
     activeTab := activeTab st |}.

Definition setSelectedIds (x : gset string) (st : State) : State :=
  {| files := files st; fields := fields st; results := results st;
     status := status st; selectedIds := x; activeTab := activeTab st |}.

Definition setActiveTab (x : Tab) (st : State) : State :=
  {| files := files st; fields := fields st; results := results st;
     status := status st; selectedIds := selectedIds st; activeTab := x |}.

(** [useState] initial values. *)
Definition initial : State :=
  {| files := []; fields := ["Invoice Number"; "Total Amount"; "Date"];
     results := []; status := idle; selectedIds := ∅; activeTab := all |}.

Definition handleFilesSelected (newFiles : list File) (st : State) : State :=
  let existingNames : gset string := list_to_set (name <$> files st) in
  let uniqueFiles := filter (λ f, name f ∉ existingNames) newFiles in
  setFiles (files st ++ uniqueFiles) st.

Definition handleRemoveFile (index : nat) (st : State) : State :=
  setFiles (snd <$> filter (λ p, p.1 ≠ index) (imap pair (files st))) st.

(** [confirmed] is the answer to the [confirm(...)] dialog. *)
Definition handleReset (confirmed : bool) (st : State) : State :=
  if confirmed then
    setActiveTab all (setSelectedIds ∅ (setStatus idle
      (setResults [] (setFiles [] st))))
  else st.

Definition handleDataUpdate (i : string) (field value : string) (st : State)
  : State :=
  setResults
    ((λ item,
       match data item with
       | Some d =>
           if decide (id item = i)
           then with_data (JsObject.set field (Js.VStr value)
                             (JsObject.spread d)) item
           else item
       | None => item
       end) <$> results st) st.

Definition handleReorderFields (newFields : list string) (st : State) : State :=
  {| files := files st; fields := newFields; results := results st;
     status := status st; selectedIds := selectedIds st;
     activeTab := activeTab st |}.

(** [newSet.has(id) ? newSet.delete(id) : newSet.add(id)] on a copy. *)
Definition handleSelect (i : string) (st : State) : State :=
  setSelectedIds
    (if decide (i ∈ selectedIds st) then selectedIds st ∖ {[ i ]}
     else selectedIds st ∪ {[ i ]}) st.

(** [ids.forEach(id => shouldSelect ? newSet.add(id) : newSet.delete(id))]
    on a copy. *)
Definition handleSelectAll (ids : list string) (shouldSelect : bool) (st : State)
  : State :=
  setSelectedIds
    (foldl (λ newSet i, if shouldSelect then newSet ∪ {[ i ]} else newSet ∖ {[ i ]})
       (selectedIds st) ids) st.

Definition getDisplayedResults (st : State) : list ExtractedData :=
  match activeTab st with
  | all => results st
  | selected => filter (λ r, id r ∈ selectedIds st) (results st)
  end.

(** The [disabled] attribute of the start button, the only caller of
    [startExtraction]:
    [status === 'extracting' || files.length === 0 || fields.length === 0] *)
Definition start_disabled (st : State) : bool :=
  bool_decide (status st = extracting) || bool_decide (length (files st) = 0) ||
  bool_decide (length (fields st) = 0).

(** The [disabled] property handed to [FileUpload], which then ignores
    dropped and chosen files: [status === 'extracting'] *)
Definition upload_disabled (st : State) : bool :=
  bool_decide (status st = extracting).

(** [status !== 'idle']: the condition under which the Reset button is
    rendered. *)
Definition reset_rendered (st : State) : bool :=
  bool_decide (status st ≠ idle).

(** [(error as Error).message || 'Extraction failed'] *)
Definition error_message (message : option string) : string :=
  match message with
  | Some m => if decide (m = "") then "Extraction failed" else m
  | None => "Extraction failed"
  end.

(** The assignment to [updatedResults[resultIndex]] after the [await]. *)
Definition settle (o : Outcome) (item : ExtractedData) : ExtractedData :=
  match o with
  | Returned d => with_success d item
  | Threw m => with_error (error_message m) item
  end.

Section extraction.
Context {World : Type} `{!Services World}.

(** [files.map(file => ({ id: generateId(), fileName: file.name,
    status: 'pending' }))] *)
Fixpoint initialResults (fs : list File) (w : World)
  : list ExtractedData * World :=
  match fs with
  | [] => ([], w)
  | file :: fs' =>
      let '(i, w1) := generateId w in
      let '(rest, w2) := initialResults fs' w1 in
      (pending_item i (name file) :: rest, w2)
  end.

(** What a run leaves behind: the component state, the outside world,
    and the calls made to the extraction service with their results, in
    order. *)
Record Run := {
  state : State;
  world : World;
  calls : list (File * list string * Outcome);
}.

(** The [for] loop of [startExtraction], from index [i] on; [rest] is
    [files.slice(i)]. *)
Fixpoint extraction_loop (flds : list string) (rest : list File) (i : nat)
    (updatedResults : list ExtractedData) (st : State) (w : World)
    (log : list (File * list string * Outcome)) : Run :=
  match rest with
  | [] => {| state := setStatus completed st; world := w; calls := log |}
  | file :: rest' =>
      let updatedResults := alter (with_status Status.processing) i updatedResults in
      let st := setResults updatedResults st in
      let '(o, w) := extractDataFromPdf file flds w in
      let updatedResults := alter (settle o) i updatedResults in
      let st := setResults updatedResults st in
      extraction_loop flds rest' (S i) updatedResults st w
        (log ++ [(file, flds, o)])
  end.

(** The statements of [startExtraction] between the guard and the loop. *)
Definition prepare (st : State) (w : World) : list ExtractedData * State * World :=
  let st := setStatus extracting st in
  let st := setActiveTab all st in
  let '(initial, w) := initialResults (files st) w in
  let st := setResults initial st in
  let st :=
    match initial with
    | first :: _ => setSelectedIds {[ id first ]} st
    | [] => setSelectedIds ∅ st
    end in
  (initial, st, w).

(** [startExtraction], run to the end with no other handler in between. *)
Definition startExtraction (st : State) (w : World) : Run :=
  if bool_decide (length (files st) = 0) || bool_decide (length (fields st) = 0)
  then {| state := st; world := w; calls := [] |}
  else
    let '(initial, st1, w1) := prepare st w in
    extraction_loop (fields st) (files st) 0 initial st1 w1 [].

(** *** The same function, one [await] at a time

    Between the start of [extractDataFromPdf] and the arrival of its
    result the component handles other events. A suspended run is the
    closure of [startExtraction] waiting at the [await] of iteration
    [at_index]: it owns its [files], [fields] and [updatedResults]. *)
Record Suspended := {
  run_files : list File;
  run_fields : list string;
  updatedResults : list ExtractedData;
  at_index : nat;
}.

(** The loop from the test [i < files.length] up to the [await], or to
    the end of the function. *)
Definition iteration (fs : list File) (flds : list string) (i : nat)
    (updated : list ExtractedData) (st : State) : option Suspended * State :=
  match fs !! i with
  | Some _ =>
      let updated := alter (with_status Status.processing) i updated in
      (Some {| run_files := fs; run_fields := flds;
               updatedResults := updated; at_index := i |},
       setResults updated st)
  | None => (None, setStatus completed st)
  end.

(** The click on the start button, up to the first [await]. *)
Definition start (st : State) (w : World) : option Suspended * State * World :=
  if bool_decide (length (files st) = 0) || bool_decide (length (fields st) = 0)
  then (None, st, w)
  else
    let '(initial, st1, w1) := prepare st w in
    (iteration (files st) (fields st) 0 initial st1, w1).

(** The arrival of the awaited result [o], up to the next [await]. *)
Definition resume (o : Outcome) (r : Suspended) (st : State)
  : option Suspended * State :=
  let updated := alter (settle o) (at_index r) (updatedResults r) in
  iteration (run_files r) (run_fields r) (S (at_index r)) updated
    (setResults updated st).

(** Driving a suspended run with the answers of the service and no other
    event in between; [n] bounds the number of answers consumed. *)
Fixpoint drive (n : nat) (r : option Suspended) (st : State) (w : World)
  : option (State * World) :=
  match r with
  | None => Some (st, w)
  | Some run =>
      match n, run_files run !! at_index run with
      | S n', Some file =>
          let '(o, w') := extractDataFromPdf file (run_fields run) w in
          let '(r', st') := resume o run st in
          drive n' r' st' w'
      | _, _ => None
      end
  end.
End extraction.

End App.

(** ** [services/excelService.ts] *)

Module ExcelService.

(** What an export does: it shows an alert, or it writes a workbook with
    one sheet made of a header line and a row object per exported item. *)
Inductive Effect :=
  | alert (message : string)
  | writeFile (filename sheet : string) (header : list string) (rows : list Data).

(** [XLSX.utils.json_to_sheet(rows)] takes its columns from the keys of the
    row objects, each key at its first appearance. *)
Definition add_keys (hdr : list string) (row : Data) : list string :=
  foldl (λ h k, if decide (k ∈ h) then h else h ++ [k]) hdr (JsObject.keys row).

Definition json_to_sheet_header (rows : list Data) : list string :=
  foldl add_keys [] rows.

(** [item.status === 'success' && item.data], then the selection if one is
    given. *)
Definition exportable (selectedIds : option (gset string)) (item : ExtractedData)
  : bool :=
  bool_decide (status item = Status.success) && bool_decide (is_Some (data item)) &&
  match selectedIds with
  | Some sel => bool_decide (id item ∈ sel)
  | None => true
  end.

(** [{ FileName: item.fileName, ...item.data }] *)
Definition export_row (item : ExtractedData) : Data :=
  foldl (λ o kv, JsObject.set kv.1 kv.2 o)
    [("FileName", Js.VStr (fileName item))]
    (JsObject.entries (default [] (data item))).

Definition exportableData (items : list ExtractedData)
    (selectedIds : option (gset string)) : list Data :=
  export_row <$> List.filter (exportable selectedIds) items.

(** The default of the [filename] parameter. *)
Definition default_filename : string := "extracted_data.xlsx".

Definition exportToExcel (items : list ExtractedData)
    (selectedIds : option (gset string)) (filename : string) : Effect :=
  let rows := exportableData items selectedIds in
  if bool_decide (length rows = 0)
  then alert "No data available to export."
  else writeFile filename "Extracted Data" (json_to_sheet_header rows) rows.

(** [handleExport] and [handleExportAll] of [App.tsx]. *)
Definition handleExport (st : App.State) : Effect :=
  exportToExcel (App.results st) (Some (App.selectedIds st)) default_filename.

Definition handleExportAll (st : App.State) : Effect :=
  exportToExcel (App.results st) None "all_extracted_data.xlsx".

End ExcelService.

(** ** [components/ExcelSummary.tsx] *)

Module ExcelSummary.

Definition customer_patterns : list Js.RegExp :=
  [Js.regex_i "customer"; Js.regex_i "name"; Js.regex_i "client"].
Definition job_patterns : list Js.RegExp :=
  [Js.regex_i "job no"; Js.regex_i "job"; Js.regex_i "number"].
Definition advance_patterns : list Js.RegExp :=
  [Js.regex_i "advance total"; Js.regex_i "advance"].
Definition terms_patterns : list Js.RegExp :=
  [Js.regex_i "payment terms"; Js.regex_i "terms"; Js.regex_i "payment"].
Definition date_patterns : list Js.RegExp :=
  [Js.regex_i "invoice date"; Js.regex_i "date"].
Definition grand_total_patterns : list Js.RegExp :=
  [Js.regex_i "grand total"; Js.regex_i "total amount"; Js.regex_i "total";
   Js.regex_i "amount"].

(** The name under which a possibly [undefined] field is looked up. *)
Definition property_name (field : option string) : string :=
  default "undefined" field.

(** [item.data?.[field]] *)
Definition read (item : ExtractedData) (field : string) : JsObject.Lookup Js.Value :=
  match data item with
  | Some d => JsObject.Get d field
  | None => JsObject.Undefined
  end.

Module Group.
Record t := {
  customerName : string;
  jobNos : Js.StringSet;
  advanceTotals : Js.StringSet;
  paymentTerms : Js.StringSet;
  invoiceDates : Js.StringSet;
  grandTotals : Js.StringSet;
  files : list string;
  ids : list string;
}.

Definition fresh (customerName : string) : t :=
  {| customerName := customerName; jobNos := []; advanceTotals := [];
     paymentTerms := []; invoiceDates := []; grandTotals := [];
     files := []; ids := [] |}.
End Group.

(** The roles resolved before the scan. *)
Record Roles := {
  customer : option string;
  job : option string;
  advance : option string;
  terms : option string;
  date : option string;
  grand_total : option string;
}.

Record Row := {
  key : string;
  customerName : string;
  jobNos : string;
  advanceTotal : string;
  paymentTerms : string;
  invoiceDate : string;
  grandTotal : string;
  fileCount : nat;
  ids : list string;
}.

(** [set.size > 0 ? Array.from(set).join(', ') : '-'] *)
Definition display (set : Js.StringSet) : string :=
  if bool_decide (0 < length set) then Js.join ", " set else "-".

Definition row_of (e : string * Group.t) : Row :=
  {| key := e.1;
     customerName := Group.customerName e.2;
     jobNos := display (Group.jobNos e.2);
     advanceTotal := display (Group.advanceTotals e.2);
     paymentTerms := display (Group.paymentTerms e.2);
     invoiceDate := display (Group.invoiceDates e.2);
     grandTotal := display (Group.grandTotals e.2);
     fileCount := length (Group.files e.2);
     ids := Group.ids e.2 |}.

(** [data.filter(item => selectedIds.has(item.id) &&
    item.status === 'success' && item.data)] *)
Definition selectedItems (items : list ExtractedData) (selectedIds : gset string)
  : list ExtractedData :=
  List.filter (λ item, bool_decide (id item ∈ selectedIds) &&
                       bool_decide (status item = Status.success) &&
                       bool_decide (is_Some (data item))) items.

Section summary.
Context `{!Js.Engine}.

(** [fields.find(f => patterns.some(p => p.test(f.toLowerCase())))] *)
Definition findField (fields : list string) (patterns : list Js.RegExp)
  : option string :=
  List.find (λ f, existsb (λ p, Js.test p (Js.toLowerCase f)) patterns) fields.

(** [findField([/customer/i, /name/i, /client/i]) || fields[0]] *)
Definition customerField (fields : list string) : option string :=
  let found := findField fields customer_patterns in
  if Js.truthy_string found then found else fields !! 0.

Definition resolve (fields : list string) : Roles :=
  {| customer := customerField fields;
     job := findField fields job_patterns;
     advance := findField fields advance_patterns;
     terms := findField fields terms_patterns;
     date := findField fields date_patterns;
     grand_total := findField fields grand_total_patterns |}.

(** [item.data?.[customerField]] *)
Definition customerVal (r : Roles) (item : ExtractedData)
  : JsObject.Lookup Js.Value :=
  read item (property_name (customer r)).

(** [String(customerVal || 'Unknown')] *)
Definition customerText (r : Roles) (item : ExtractedData) : string :=
  if JsObject.truthy (customerVal r item)
  then JsObject.text (property_name (customer r)) (customerVal r item)
  else "Unknown".

(** [String(customerVal || 'Unknown').trim().toLowerCase()] *)
Definition normalizedKey (r : Roles) (item : ExtractedData) : string :=
  Js.toLowerCase (Js.trim (customerText r item)).

(** [addToSet(set, field)] on a set that exists:
    [if (field && item.data?.[field]) set.add(String(item.data[field]))] *)
Definition addToSet (item : ExtractedData) (set : Js.StringSet)
    (field : option string) : Js.StringSet :=
  match field with
  | Some f =>
      if bool_decide (f ≠ "") && JsObject.truthy (read item f)
      then Js.Set_add (JsObject.text f (read item f)) set
      else set
  | None => set
  end.

(** The five [addToSet] calls and the two [push]es on the group of the item. *)
Definition add_item (r : Roles) (item : ExtractedData) (g : Group.t) : Group.t :=
  {| Group.customerName := Group.customerName g;
     Group.jobNos := addToSet item (Group.jobNos g) (job r);
     Group.advanceTotals := addToSet item (Group.advanceTotals g) (advance r);
     Group.paymentTerms := addToSet item (Group.paymentTerms g) (terms r);
     Group.invoiceDates := addToSet item (Group.invoiceDates g) (date r);
     Group.grandTotals := addToSet item (Group.grandTotals g) (grand_total r);
     Group.files := Group.files g ++ [fileName item];
     Group.ids := Group.ids g ++ [id item] |}.

(** The body of [selectedItems.forEach]. When [groups[normalizedKey]] is a
    member inherited from [Object.prototype] no group is created, the sets
    and lists read from it are [undefined], and the body ends in a
    [TypeError] at the latest on [files.push]. *)
Definition group_item (r : Roles) (groups : JsObject.t Group.t)
    (item : ExtractedData) : Js.Completion (JsObject.t Group.t) :=
  let k := normalizedKey r item in
  let groups :=
    match JsObject.Get groups k with
    | JsObject.Undefined =>
        JsObject.set k (Group.fresh (customerText r item)) groups
    | _ => groups
    end in
  match JsObject.Get groups k with
  | JsObject.Own g => Js.Normal (JsObject.set k (add_item r item g) groups)
  | _ => Js.Throw "TypeError"
  end.

(** The [useMemo] body. *)
Definition summaryRows (items : list ExtractedData) (selectedIds : gset string)
    (fields : list string) : Js.Completion (list Row) :=
  let selected := selectedItems items selectedIds in
  if bool_decide (length selected = 0) then Js.Normal []
  else
    let r := resolve fields in
    Js.bind (Js.forEach (group_item r) selected [])
      (λ groups, Js.Normal (row_of <$> JsObject.entries groups)).
End summary.

(** The two editable columns of a summary row. *)
Inductive Editable := finalTotal | notes.

Global Instance editable_eq_dec : EqDecision Editable.
Proof. solve_decision. Defined.

Definition editable_name (f : Editable) : string :=
  match f with
  | finalTotal => "finalTotal"
  | notes => "notes"
  end.

(** The [summaryData] state: for a row key, an object with the two
    editable texts. *)
Definition SummaryData := JsObject.t (JsObject.t string).

(** [prev[key] || { finalTotal: '', notes: '' }], spread: a member
    inherited from [Object.prototype] is truthy and has no own enumerable
    property. *)
Definition previous_entry (prev : SummaryData) (k : string) : JsObject.t string :=
  match JsObject.Get prev k with
  | JsObject.Own entry => JsObject.spread entry
  | JsObject.Inherited => []
  | JsObject.Undefined => [("finalTotal", ""); ("notes", "")]
  end.

Definition handleEditChange (k : string) (field : Editable) (value : string)
    (prev : SummaryData) : SummaryData :=
  JsObject.set k
    (JsObject.set (editable_name field) value (previous_entry prev k))
    (JsObject.spread prev).

(** [summaryData[row.key]?.finalTotal || ''] and the same for [notes]: the
    text shown in the input. *)
Definition shown (sd : SummaryData) (k : string) (field : Editable) : string :=
  match JsObject.Get sd k with
  | JsObject.Own entry => default "" (JsObject.own (editable_name field) entry)
  | _ => ""
  end.

End ExcelSummary.

(** ** [components/FieldConfig.tsx] *)

Module FieldConfig.

(** The FieldSet of the parent and the text of the input box. *)
Record State := { fields : list string; newField : string }.

Definition handleAddField (st : State) : State :=
  let name := Js.trim (newField st) in
  if bool_decide (name ≠ "") && bool_decide (name ∉ fields st)
  then {| fields := fields st ++ [name]; newField := "" |}
  else st.

Definition removeField (fieldToRemove : string) (st : State) : State :=
  {| fields := filter (λ f, f ≠ fieldToRemove) (fields st);
     newField := newField st |}.

Inductive Template := invoice | job_invoice | resume | id_card.

Definition applyTemplate (type : Template) (st : State) : State :=
  {| fields :=
       match type with
       | invoice =>
           ["Invoice Number"; "Date"; "Total Amount"; "Vendor Name"; "Tax Amount"]
       | job_invoice =>
           ["Customer"; "Job No"; "Advance Total"; "Payment Terms"; "Invoice date";
            "Grand Total"]
       | resume => ["Full Name"; "Email"; "Phone"; "Skills"; "Recent Experience"]
       | id_card => ["ID Number"; "Name"; "Date of Birth"; "Expiry Date"; "Address"]
       end;
     newField := newField st |}.

End FieldConfig.

(** ** [components/ResultsTable.tsx] *)

Module ResultsTable.

(** [l.every(f)] with a callback that may throw; it stops at the first
    [false]. *)
Fixpoint every {A} (f : A → Js.Completion bool) (l : list A) : Js.Completion bool :=
  match l with
  | [] => Js.Normal true
  | x :: l' => Js.bind (f x) (λ b, if b then every f l' else Js.Normal false)
  end.

(** [l.filter(f)] with a callback that may throw. *)
Fixpoint filter_items {A} (f : A → Js.Completion bool) (l : list A)
  : Js.Completion (list A) :=
  match l with
  | [] => Js.Normal []
  | x :: l' =>
      Js.bind (f x) (λ b,
        Js.bind (filter_items f l') (λ rest,
          Js.Normal (if b then x :: rest else rest)))
  end.

Section filters.
Context `{!Js.Engine}.

(** The callback of [fields.every]. [columnFilters[field]?.toLowerCase()]
    reads a plain object: for a field named like a member of
    [Object.prototype] and without a filter of its own the value read has no
    [toLowerCase], and the call throws. *)
Definition matchesColumn (columnFilters : JsObject.t string) (item : ExtractedData)
    (field : string) : Js.Completion bool :=
  match JsObject.Get columnFilters field with
  | JsObject.Inherited => Js.Throw "TypeError"
  | JsObject.Undefined => Js.Normal true
  | JsObject.Own q =>
      let query := Js.toLowerCase q in
      if decide (query = "") then Js.Normal true
      else
        let value := ExcelSummary.read item field in
        let strValue :=
          match value with
          | JsObject.Own Js.VNull | JsObject.Undefined => ""
          | _ => Js.toLowerCase (JsObject.text field value)
          end in
        Js.Normal (Js.includes query strValue)
  end.

(** The callback of [data.filter]. *)
Definition visible (filter : string) (columnFilters : JsObject.t string)
    (fields : list string) (item : ExtractedData) : Js.Completion bool :=
  let matchesFilename :=
    Js.includes (Js.toLowerCase filter) (Js.toLowerCase (fileName item)) in
  Js.bind (every (matchesColumn columnFilters item) fields)
    (λ matchesColumns, Js.Normal (matchesFilename && matchesColumns)).

(** The [useMemo] body. *)
Definition visibleData (items : list ExtractedData) (filter : string)
    (columnFilters : JsObject.t string) (fields : list string)
  : Js.Completion (list ExtractedData) :=
  filter_items (visible filter columnFilters fields) items.
End filters.

Definition visibleIds (shown : list ExtractedData) : list string := id <$> shown.

(** [visibleIds.length > 0 && visibleIds.every(id => selectedIds.has(id))] *)
Definition allSelected (ids : list string) (selectedIds : gset string) : bool :=
  bool_decide (0 < length ids) && forallb (λ i, bool_decide (i ∈ selectedIds)) ids.

(** [visibleIds.some(id => selectedIds.has(id)) && !allSelected] *)
Definition isIndeterminate (ids : list string) (selectedIds : gset string) : bool :=
  existsb (λ i, bool_decide (i ∈ selectedIds)) ids && negb (allSelected ids selectedIds).

(** [{ ...prev, [field]: value }] *)
Definition handleColumnFilterChange (field value : string)
    (prev : JsObject.t string) : JsObject.t string :=
  JsObject.set field value (JsObject.spread prev).

(** [l.indexOf(x)], [None] standing for [-1]. *)
Fixpoint indexOf (x : string) (l : list string) : option nat :=
  match l with
  | [] => None
  | y :: l' => if decide (y = x) then Some 0 else S <$> indexOf x l'
  end.

(** [l.splice(i, 0, x)] *)
Definition splice_in (i : nat) (x : string) (l : list string) : list string :=
  take i l ++ x :: drop i l.

(** The column drop handler: the argument given to [onReorderFields], if
    it is called. *)
Definition handleDrop (draggingField : option string) (targetField : string)
    (fields : list string) : option (list string) :=
  match draggingField with
  | None => None
  | Some dragged =>
      if bool_decide (dragged = "") || bool_decide (dragged = targetField)
      then None
      else
        match indexOf dragged fields, indexOf targetField fields with
        | Some fromIndex, Some toIndex =>
            Some (splice_in toIndex dragged (delete fromIndex fields))
        | _, _ => None
        end
  end.

End ResultsTable.

(** ** [services/geminiService.ts] *)

Module GeminiService.

(** The result of a promise: fulfilled, or rejected with an object whose
    [message] may be missing. *)
Inductive Settled (A : Type) :=
  | Fulfilled (a : A)
  | Rejected (message : option string).
Global Arguments Fulfilled {A} a.
Global Arguments Rejected {A} message.

(** What the function reaches outside: the file reader, the remote model
    (its answer is the [text] of the response, possibly missing) and
    [JSON.parse]. *)
Class Remote (World : Type) := {
  fileToGenerativePart : File → World → Settled string * World;
  generateContent : string → list string → World → Settled (option string) * World;
  JSON_parse : string → Settled Data;
}.

Section service.
Context {World : Type} `{!Remote World}.

Definition extractDataFromPdf (API_KEY : string) (file : File)
    (fields : list string) (w : World) : Outcome * World :=
  if decide (API_KEY = "") then (Threw (Some "API Key is missing"), w)
  else
    match fileToGenerativePart file w with
    | (Rejected m, w) => (Threw m, w)
    | (Fulfilled base64Data, w) =>
        match generateContent base64Data fields w with
        | (Rejected m, w) => (Threw m, w)
        | (Fulfilled text, w) =>
            match text with
            | None | Some EmptyString => (Returned [], w)
            | Some text =>
                match JSON_parse text with
                | Fulfilled d => (Returned d, w)
                | Rejected m => (Threw m, w)
                end
            end
        end
    end.

(** The services of the application, with the key of the environment and
    a generator of identifiers. *)
Definition services (API_KEY : string) (random : World → string * World)
  : Services World :=
  Build_Services World random (extractDataFromPdf API_KEY).
End service.

End GeminiService.

(** ** A scripted service

    A world whose identifiers are numbered and whose extraction service
    reads its answers from a script; it serves to run the program on
    concrete batches. *)

Module Scripted.
Record World := { next_id : nat; script : list Outcome }.

Definition fresh_id (w : World) : string * World :=
  ("id" +:+ String (ascii_of_nat (48 + next_id w)) "",
   {| next_id := S (next_id w); script := script w |}).

Definition answer (file : File) (fields : list string) (w : World)
  : Outcome * World :=
  match script w with
  | o :: rest => (o, {| next_id := next_id w; script := rest |})
  | [] => (Threw (Some "API Key is missing"), w)
  end.

Global Instance services : Services World :=
  {| generateId := fresh_id; extractDataFromPdf := answer |}.

Definition world (answers : list Outcome) : World :=
  {| next_id := 0; script := answers |}.
End Scripted.

(** ** An unreachable service

    A world in which the reader and the remote model always fail; the
    state of the world counts the identifiers handed out. *)

Module Offline.
Global Instance remote : GeminiService.Remote nat :=
  {| GeminiService.fileToGenerativePart _ w := (GeminiService.Rejected None, w);
     GeminiService.generateContent _ _ w :=
       (GeminiService.Rejected (Some "fetch failed"), w);
     GeminiService.JSON_parse _ := GeminiService.Rejected (Some "Unexpected token") |}.

Definition random (w : nat) : string * nat :=
  ("id" +:+ String (ascii_of_nat (48 + w)) "", S w).
End Offline.

(** ** Sample batches *)

Module Sample.
Definition a_pdf : File := {| name := "a.pdf"; contents := "%PDF-a" |}.
Definition b_pdf : File := {| name := "b.pdf"; contents := "%PDF-b" |}.

Definition invoice (number : string) : Data :=
  [("Invoice Number", Js.VStr number); ("Total Amount", Js.VStr "100");
   ("Date", Js.VNull)].

(** Two files chosen, the default fields. *)
Definition two_files : App.State :=
  App.handleFilesSelected [a_pdf; b_pdf] App.initial.

(** The service fails on the first call and answers the second. *)
Definition fail_then_answer : Scripted.World :=
  Scripted.world [Threw (Some "API Key is missing"); Returned (invoice "7")].

(** The Store after a run over both files that the service answered. *)
Definition extracted : list ExtractedData :=
  [ {| id := "id0"; fileName := "a.pdf"; status := Status.success;
       data := Some (invoice "7"); error := None |};
    {| id := "id1"; fileName := "b.pdf"; status := Status.success;
       data := Some (invoice "8"); error := None |} ].

(** A finished run over one file for which the service answered the
    empty record, as [extractDataFromPdf] does on an empty response. *)
Definition empty_answer : App.State :=
  App.state (App.startExtraction
               (App.handleFilesSelected [a_pdf] App.initial)
               (Scripted.world [Returned []])).

(** Two extracted invoices, numbered 1002 and 1001, both selected, under
    the default fields. *)
Definition numbered : list ExtractedData :=
  [ {| id := "id0"; fileName := "a.pdf"; status := Status.success;
       data := Some (invoice "1002"); error := None |};
    {| id := "id1"; fileName := "b.pdf"; status := Status.success;
       data := Some (invoice "1001"); error := None |} ].
Definition both : gset string := {[ "id0"; "id1" ]}.

(** One extracted record whose customer is two blanks. *)
Definition blank_customer : list ExtractedData :=
  [ {| id := "id0"; fileName := "a.pdf"; status := Status.success;
       data := Some [("Customer", Js.VStr "  "); ("Job No", Js.VStr "J1")];
       error := None |} ].

(** Three records of one customer written three ways. *)
Definition acme : list ExtractedData :=
  [ {| id := "id0"; fileName := "a.pdf"; status := Status.success;
       data := Some [("Customer", Js.VStr "Acme Corp")]; error := None |};
    {| id := "id1"; fileName := "b.pdf"; status := Status.success;
       data := Some [("Customer", Js.VStr " acme corp ")]; error := None |};
    {| id := "id2"; fileName := "c.pdf"; status := Status.success;
       data := Some [("Customer", Js.VStr "ACME CORP")]; error := None |} ].
Definition all_three : gset string := {[ "id0"; "id1"; "id2" ]}.

(** Run A is started on [a.pdf]; while it waits the user resets, chooses
    [b.pdf] and starts run B. *)
Definition run_A :=
  App.start (App.handleFilesSelected [a_pdf] App.initial)
    (Scripted.world [Returned (invoice "7"); Returned (invoice "8")]).
Definition run_B :=
  App.start (App.handleFilesSelected [b_pdf] (App.handleReset true run_A.1.2))
    run_A.2.
End Sample.

(** ** Vocabulary of the statements *)

(** The distinct members of [l], each at the place of its first occurrence. *)
Definition first_seen (l : list string) : list string :=
  foldl (λ seen k, if decide (k ∈ seen) then seen else seen ++ [k]) [] l.

(** The selected items whose normalized customer key is [k], in scan order. *)
Definition members `{!Js.Engine} (r : ExcelSummary.Roles) (k : string)
    (l : list ExtractedData) : list ExtractedData :=
  filter (λ item, ExcelSummary.normalizedKey r item = k) l.

(** The group a scan of [l] builds for the key [k]: created for the first
    member, then fed every member in scan order. *)
Definition group_of `{!Js.Engine} (r : ExcelSummary.Roles) (k : string)
    (l : list ExtractedData) : option ExcelSummary.Group.t :=
  match members r k l with
  | [] => None
  | first :: _ =>
      Some (foldl (λ g item, ExcelSummary.add_item r item g)
              (ExcelSummary.Group.fresh (ExcelSummary.customerText r first))
              (members r k l))
  end.

(** Two array-index keys in ascending numeric order. *)
Definition index_le (a b : string) : Prop :=
  ∃ m n, JsObject.array_index a = Some m ∧ JsObject.array_index b = Some n ∧
         (m ≤ n)%N.

(** A field name matches a role when one of the role's patterns is found in
    its lower-cased text. *)
Definition matches_any `{!Js.Engine} (patterns : list Js.RegExp) (f : string) : bool :=
  existsb (λ p, Js.test p (Js.toLowerCase f)) patterns.

(** An item once its extraction call has come back with [o]. *)
Definition committed (o : Outcome) (item : ExtractedData) : ExtractedData :=
  App.settle o (with_status Status.processing item).

(** A run that changed nothing, called nothing and reported nothing. *)
Definition silent_noop {World : Type} (st : App.State) (w : World)
    (r : App.Run) : Prop :=
  r = {| App.state := st; App.world := w; App.calls := [] |}.

(** An item whose status agrees with what it carries: data exactly when it
    succeeded, an error text exactly when it failed. *)
Definition consistent (item : ExtractedData) : Prop :=
  (is_Some (data item) ↔ status item = Status.success) ∧
  (is_Some (error item) ↔ status item = Status.error).

(** The Store while the call for item [i] is awaited: the items before [i]
    are settled, item [i] is being processed, the others wait. *)
Definition in_flight (i : nat) (l : list ExtractedData) : Prop :=
  Forall (λ item, Status.terminal (status item) = true) (take i l) ∧
  status <$> l !! i = Some Status.processing ∧
  Forall (λ item, status item = Status.pending) (drop (S i) l).

(** What an item contributes to the value set of a role resolved to
    [field]: the text of what is read there, when the field name and what
    is read are truthy. *)
Definition contribution `{!Js.Engine} (field : option string) (item : ExtractedData)
  : option string :=
  f ← field;
  if bool_decide (f ≠ "") && JsObject.truthy (ExcelSummary.read item f)
  then Some (JsObject.text f (ExcelSummary.read item f)) else None.

(** The white space of ECMAScript, one string per character. *)
Definition utf8 (bytes : list N) : string :=
  foldr (λ n s, String (ascii_of_N n) s) "" bytes.

Definition white_space : list string :=
  utf8 <$> [ [9]; [10]; [11]; [12]; [13]; [32]; [194; 160]; [225; 154; 128];
             [226; 128; 128]; [226; 128; 129]; [226; 128; 130]; [226; 128; 131];
             [226; 128; 132]; [226; 128; 133]; [226; 128; 134]; [226; 128; 135];
             [226; 128; 136]; [226; 128; 137]; [226; 128; 138]; [226; 128; 168];
             [226; 128; 169]; [226; 128; 175]; [226; 129; 159]; [227; 128; 128];
             [239; 187; 191] ]%N.

(** A byte that continues a character of several bytes. *)
Definition continuation (c : ascii) : bool := Js.in_range 128 191 c.

(** A text made of white space only. *)
Definition blank (s : string) : Prop :=
  ∃ chars, Forall (λ c, c ∈ white_space) chars ∧ s = foldr String.app "" chars.

(** * Theorems *)

(** ** Adding files *)

Lemma handleFilesSelected_files newFiles st f :
  f ∈ App.files (App.handleFilesSelected newFiles st) ↔
  f ∈ App.files st ∨ (f ∈ newFiles ∧ name f ∉ name <$> App.files st).
Proof.
  unfold App.handleFilesSelected. simpl.
  rewrite elem_of_app, list_elem_of_filter, elem_of_list_to_set. tauto.
Qed.

(** C10. Two incoming files of one name, neither in the list yet, are both
    added: the names of the batch are not pairwise distinct. *)
Theorem handleFilesSelected_same_name_twice :
  let a1 := {| name := "a.pdf"; contents := "first folder" |} in
  let a2 := {| name := "a.pdf"; contents := "second folder" |} in
  App.files (App.handleFilesSelected [a1; a2] App.initial) = [a1; a2] ∧
  ¬ NoDup (name <$> App.files (App.handleFilesSelected [a1; a2] App.initial)).
Proof.
  split; [reflexivity|].
  intros H. vm_compute in H. apply NoDup_cons in H as [H _].
  apply H. left.
Qed.

(** ** The guard of [startExtraction] *)

Lemma guard_leaves_state `{!Services World} (st : App.State) (w : World) :
  App.files st = [] ∨ App.fields st = [] →
  App.startExtraction st w = {| App.state := st; App.world := w; App.calls := [] |}.
Proof.
  intros H. unfold App.startExtraction.
  destruct H as [-> | ->]; simpl; [done|].
  by rewrite orb_true_r.
Qed.

(** C8, as stated, fails: with no file the run changes nothing and reports
    nothing. *)
Lemma startExtraction_empty_is_silent :
  ¬ (∀ st : App.State, App.files st = [] ∨ App.fields st = [] →
       ¬ silent_noop st (Scripted.world []) (App.startExtraction st (Scripted.world []))).
Proof.
  intros H. apply (H App.initial); [by left|]. reflexivity.
Qed.

(** C8, amended. With an empty document list or an empty FieldSet
    [startExtraction] returns at its first statement: the state and the
    world are what they were, the service is not called, no run is left
    waiting; and the start button is disabled in that configuration. *)
Theorem startExtraction_guard_returns `{!Services World} (st : App.State) (w : World) :
  App.files st = [] ∨ App.fields st = [] →
  silent_noop st w (App.startExtraction st w) ∧ App.start st w = (None, st, w) ∧
  App.start_disabled st = true.
Proof.
  intros H. split; [by apply guard_leaves_state|].
  unfold App.start, App.start_disabled.
  destruct H as [-> | ->]; simpl; by rewrite ?orb_true_r.
Qed.

Lemma startExtraction_guard_returns_witness :
  let st := App.setFiles [{| name := "a.pdf"; contents := "" |}]
              (App.handleReorderFields [] App.initial) in
  silent_noop st (Scripted.world []) (App.startExtraction st (Scripted.world [])) ∧
  App.start st (Scripted.world []) = (None, st, Scripted.world []) ∧
  App.start_disabled st = true.
Proof.
  intros st. apply (startExtraction_guard_returns st (Scripted.world [])).
  right. reflexivity.
Defined.

(** ** Role resolution *)

Section role_resolution.
Context `{!Js.Engine}.

Lemma findField_unfold fields patterns :
  ExcelSummary.findField fields patterns = List.find (matches_any patterns) fields.
Proof. reflexivity. Qed.

Lemma matches_any_Permutation patterns patterns' f :
  patterns ≡ₚ patterns' → matches_any patterns f = matches_any patterns' f.
Proof.
  unfold matches_any. induction 1 as [|p l l' _ IH|p q l|l1 l2 l3 _ IH1 _ IH2]; simpl.
  - done.
  - by rewrite IH.
  - by rewrite !orb_assoc, (orb_comm (Js.test q _)).
  - by rewrite IH1.
Qed.

Lemma find_split (P : string → bool) (l : list string) :
  match List.find P l with
  | Some f => ∃ before after, l = before ++ f :: after ∧ P f = true ∧
                              Forall (λ g, P g = false) before
  | None => Forall (λ g, P g = false) l
  end.
Proof.
  induction l as [|x l IH]; simpl; [constructor|].
  destruct (P x) eqn:Hx.
  - exists [], l. by repeat split.
  - destruct (List.find P l) as [f|].
    + destruct IH as (before & after & -> & Hf & Hb).
      exists (x :: before), after. repeat split; [done|]. by constructor.
    + by constructor.
Qed.

(** What [findField] computes: the first field, in FieldSet order, whose
    lower-cased name matches at least one pattern of the role; the order of
    the patterns plays no part. *)
Lemma findField_first_matching_field (fields : list string)
    (patterns : list Js.RegExp) :
  match ExcelSummary.findField fields patterns with
  | Some f => ∃ before after, fields = before ++ f :: after ∧
                              matches_any patterns f = true ∧
                              Forall (λ g, matches_any patterns g = false) before
  | None => Forall (λ g, matches_any patterns g = false) fields
  end ∧
  ∀ patterns', patterns ≡ₚ patterns' →
    ExcelSummary.findField fields patterns' = ExcelSummary.findField fields patterns.
Proof.
  split.
  - rewrite findField_unfold. apply find_split.
  - intros patterns' HP. rewrite !findField_unfold.
    induction fields as [|f fields IH]; simpl; [done|].
    by rewrite (matches_any_Permutation _ _ _ HP), IH.
Qed.

(** C2. The patterns of a role are listed from the most specific to the
    most general, [/grand total/] before [/total/], and the claim reads the
    list as a priority. On the fields of the application's own Job Invoice
    template the field [Grand Total] matches the first pattern of the Grand
    Total role and the earlier field [Advance Total] matches the third only,
    yet the role resolves to [Advance Total], the field of the Advance
    Total role: the search runs over the fields first, and the priority of
    the patterns is lost. *)
Theorem findField_loses_pattern_priority (st : FieldConfig.State) :
  let fields :=
    FieldConfig.fields (FieldConfig.applyTemplate FieldConfig.job_invoice st) in
  fields = ["Customer"; "Job No"; "Advance Total"; "Payment Terms";
            "Invoice date"; "Grand Total"] ∧
  ExcelSummary.grand_total_patterns
  = [Js.regex_i "grand total"; Js.regex_i "total amount"; Js.regex_i "total";
     Js.regex_i "amount"] ∧
  Js.test (Js.regex_i "grand total") (Js.toLowerCase "Grand Total") = true ∧
  Js.test (Js.regex_i "grand total") (Js.toLowerCase "Advance Total") = false ∧
  Js.test (Js.regex_i "total amount") (Js.toLowerCase "Advance Total") = false ∧
  Js.test (Js.regex_i "total") (Js.toLowerCase "Advance Total") = true ∧
  ExcelSummary.findField fields ExcelSummary.grand_total_patterns
  = Some "Advance Total" ∧
  ExcelSummary.grand_total (ExcelSummary.resolve fields)
  = ExcelSummary.advance (ExcelSummary.resolve fields).
Proof.
  intros fields. subst fields.
  unfold ExcelSummary.resolve, ExcelSummary.findField.
  cbn [FieldConfig.applyTemplate FieldConfig.fields List.find existsb
       ExcelSummary.grand_total ExcelSummary.advance
       ExcelSummary.grand_total_patterns ExcelSummary.advance_patterns].
  rewrite !Js.toLowerCase_ascii by reflexivity.
  vm_compute. by repeat split.
Qed.
End role_resolution.

(** ** The enumeration order of keys *)

Section key_order_lemmas.
Context {A : Type} (key : A → string).
Implicit Types (l : list A) (ip : list (N * A)).

Lemma insert_index_Permutation n (x : A) ip :
  JsObject.insert_index n x ip ≡ₚ (n, x) :: ip.
Proof.
  induction ip as [|[m y] ip IH]; simpl; [done|].
  destruct (n <=? m)%N; [done|]. rewrite IH. apply Permutation_swap.
Qed.

Lemma index_part_sound l n x :
  (n, x) ∈ JsObject.index_part key l → JsObject.array_index (key x) = Some n.
Proof.
  induction l as [|y l IH]; simpl; [by intros ?%elem_of_nil|].
  destruct (JsObject.array_index (key y)) as [m|] eqn:Hy; [|done].
  rewrite insert_index_Permutation.
  intros [[= -> ->]|Hin]%elem_of_cons; [done|by apply IH].
Qed.

Lemma index_part_Permutation l :
  (JsObject.index_part key l).*2 ≡ₚ filter (λ x, JsObject.array_index (key x) ≠ None) l.
Proof.
  induction l as [|y l IH]; csimpl; [done|]. rewrite filter_cons.
  destruct (JsObject.array_index (key y)) as [m|] eqn:Hy.
  - rewrite decide_True by done. rewrite insert_index_Permutation. csimpl.
    by rewrite IH.
  - by rewrite decide_False by (intros H; by apply H).
Qed.

Lemma own_order_Permutation l : JsObject.own_order key l ≡ₚ l.
Proof.
  unfold JsObject.own_order, JsObject.string_part.
  induction l as [|y l IH]; csimpl; [done|]. rewrite filter_cons.
  destruct (JsObject.array_index (key y)) as [m|] eqn:Hy.
  - rewrite decide_False by done.
    rewrite insert_index_Permutation. csimpl. by rewrite IH.
  - rewrite decide_True by done.
    rewrite <- Permutation_middle. by rewrite IH.
Qed.

Lemma insert_index_sorted n (x : A) ip :
  StronglySorted (λ a b, (a.1 ≤ b.1)%N) ip →
  StronglySorted (λ a b, (a.1 ≤ b.1)%N) (JsObject.insert_index n x ip).
Proof.
  induction 1 as [|[m y] ip Hs IH Hall]; simpl.
  - repeat constructor.
  - destruct (n <=? m)%N eqn:Hle.
    + apply N.leb_le in Hle. constructor; [by constructor|].
      constructor; [done|].
      eapply Forall_impl; [exact Hall|]. simpl. intros; lia.
    + apply N.leb_gt in Hle. constructor; [done|].
      rewrite insert_index_Permutation. constructor; [simpl; lia|done].
Qed.

(** The array indices come out in ascending numeric order. *)
Lemma index_part_sorted l :
  StronglySorted (λ a b, index_le (key a) (key b)) (JsObject.index_part key l).*2.
Proof.
  assert (Hs : StronglySorted (λ a b, (a.1 ≤ b.1)%N) (JsObject.index_part key l)).
  { induction l as [|y l IH]; simpl; [constructor|].
    destruct (JsObject.array_index (key y)); [by apply insert_index_sorted|done]. }
  pose proof (index_part_sound l) as Hsound.
  induction Hs as [|[m y] ip Hs IH Hall]; csimpl; constructor.
  - apply IH. intros n x Hin. apply Hsound. by right.
  - apply Forall_fmap, Forall_forall. intros [n x] Hin. simpl.
    exists m, n. split; [apply Hsound; left|].
    split; [apply Hsound; by right|].
    rewrite Forall_forall in Hall. apply (Hall _ Hin).
Qed.

Lemma own_order_no_index l :
  Forall (λ x, JsObject.array_index (key x) = None) l → JsObject.own_order key l = l.
Proof.
  intros Hno.
  assert (JsObject.index_part key l = [] ∧ JsObject.string_part key l = l)
    as [Hip Hsp].
  { unfold JsObject.string_part.
    induction Hno as [|y l Hy _ [IH1 IH2]]; csimpl; [done|].
    rewrite Hy, filter_cons, decide_True by done.
    split; [done|]. by f_equal. }
  unfold JsObject.own_order. by rewrite Hip, Hsp.
Qed.
End key_order_lemmas.

Lemma insert_index_fmap {A B} (f : A → B) n (x : A) (ip : list (N * A)) :
  prod_map (λ m, m) f <$> JsObject.insert_index n x ip
  = JsObject.insert_index n (f x) (prod_map (λ m, m) f <$> ip).
Proof.
  induction ip as [|[m y] ip IH]; csimpl; [done|].
  destruct (n <=? m)%N; csimpl; [done|]. by rewrite IH.
Qed.

(** Ordering the keys of the properties is ordering the properties. *)
Lemma own_order_fmap {A} (key : A → string) (l : list A) :
  key <$> JsObject.own_order key l = JsObject.key_order (key <$> l).
Proof.
  unfold JsObject.key_order, JsObject.own_order, JsObject.string_part.
  rewrite fmap_app. f_equal.
  - assert (prod_map (λ m, m) key <$> JsObject.index_part key l
            = JsObject.index_part (λ k, k) (key <$> l)) as <-.
    { induction l as [|y l IH]; csimpl; [done|].
      destruct (JsObject.array_index (key y)); [|done].
      by rewrite insert_index_fmap, IH. }
    rewrite <- !list_fmap_compose. done.
  - induction l as [|y l IH]; csimpl; [done|]. rewrite !filter_cons. simpl.
    destruct (decide (JsObject.array_index (key y) = None)); csimpl;
      by rewrite IH.
Qed.

(** ** Plain objects: reading, writing, enumerating *)

Section object_lemmas.
Context {V : Type}.
Implicit Types (o : JsObject.t V) (k : string) (v : V).

Lemma own_set k k' v o :
  JsObject.own k' (JsObject.set k v o)
  = if decide (k = k') then Some v else JsObject.own k' o.
Proof.
  induction o as [|[k0 v0] o IH]; simpl.
  - destruct (decide (k = k')); done.
  - destruct (decide (k0 = k)) as [->|Hne]; simpl.
    + destruct (decide (k = k')); done.
    + rewrite IH. destruct (decide (k0 = k')) as [->|]; [|done].
      by rewrite decide_False.
Qed.

Lemma own_app k o1 o2 :
  JsObject.own k (o1 ++ o2)
  = match JsObject.own k o1 with Some v => Some v | None => JsObject.own k o2 end.
Proof.
  induction o1 as [|[k0 v0] o1 IH]; simpl; [done|].
  destruct (decide (k0 = k)); done.
Qed.

Lemma own_None k o : JsObject.own k o = None ↔ k ∉ o.*1.
Proof.
  induction o as [|[k0 v0] o IH]; simpl.
  - split; [intros _; apply not_elem_of_nil|done].
  - rewrite not_elem_of_cons. destruct (decide (k0 = k)) as [->|Hne].
    + split; [done|]. intros [? _]. done.
    + rewrite IH. split; [intros ?; split; [congruence|done]|tauto].
Qed.

Lemma own_Some_elem_of k v o : JsObject.own k o = Some v → (k, v) ∈ o.
Proof.
  induction o as [|[k0 v0] o IH]; simpl; [done|].
  destruct (decide (k0 = k)) as [->|Hne].
  - intros [= ->]. left.
  - intros H. right. by apply IH.
Qed.

Lemma set_keys_elem_of k v o :
  k ∈ o.*1 → (JsObject.set k v o).*1 = o.*1.
Proof.
  induction o as [|[k0 v0] o IH]; csimpl.
  - by intros ?%elem_of_nil.
  - destruct (decide (k0 = k)) as [->|Hne]; csimpl; [done|].
    intros [?|Hin]%elem_of_cons; [congruence|]. by rewrite IH.
Qed.

Lemma set_not_elem_of k v o :
  k ∉ o.*1 → JsObject.set k v o = o ++ [(k, v)].
Proof.
  induction o as [|[k0 v0] o IH]; simpl; [done|].
  intros [Hne Hnot]%not_elem_of_cons.
  rewrite decide_False by congruence. by rewrite IH.
Qed.

Lemma own_insert_index k n (x : string * V) (ip : list (N * (string * V))) :
  (∀ m e, (m, e) ∈ ip → JsObject.array_index e.1 = Some m) →
  JsObject.array_index x.1 = Some n →
  JsObject.own k (JsObject.insert_index n x ip).*2
  = if decide (x.1 = k) then Some x.2 else JsObject.own k ip.*2.
Proof.
  intros Hip Hx. destruct x as [kx vx]. simpl in *.
  induction ip as [|[m [ky vy]] ip IH]; csimpl.
  - done.
  - destruct (n <=? m)%N eqn:Hle; csimpl; [done|].
    rewrite IH by (intros ???; apply Hip; by right).
    destruct (decide (ky = k)) as [->|]; [|done].
    destruct (decide (kx = k)) as [->|]; [|done].
    specialize (Hip m (k, vy) ltac:(left)). simpl in Hip.
    rewrite Hx in Hip. injection Hip as ->.
    apply N.leb_gt in Hle. lia.
Qed.

Lemma own_index_part k o :
  JsObject.own k (JsObject.index_part fst o).*2
  = match JsObject.array_index k with
    | Some _ => JsObject.own k o
    | None => None
    end.
Proof.
  induction o as [|[k0 v0] o IH]; csimpl.
  - by destruct (JsObject.array_index k).
  - destruct (JsObject.array_index k0) as [m|] eqn:H0.
    + rewrite own_insert_index; [|apply index_part_sound|done]. csimpl.
      rewrite IH. destruct (decide (k0 = k)) as [->|]; [|done].
      by rewrite H0.
    + rewrite IH. destruct (decide (k0 = k)) as [->|]; [|done].
      by rewrite H0.
Qed.

Lemma own_string_part k o :
  JsObject.own k (JsObject.string_part fst o)
  = match JsObject.array_index k with
    | Some _ => None
    | None => JsObject.own k o
    end.
Proof.
  unfold JsObject.string_part.
  induction o as [|[k0 v0] o IH]; simpl.
  - by destruct (JsObject.array_index k).
  - rewrite filter_cons. simpl.
    destruct (decide (JsObject.array_index k0 = None)) as [H0|H0]; simpl.
    + rewrite IH. destruct (decide (k0 = k)) as [->|]; [|done].
      by rewrite H0.
    + rewrite IH. destruct (decide (k0 = k)) as [->|]; [|done].
      by destruct (JsObject.array_index k).
Qed.

(** Enumeration reorders the properties and keeps what each key holds. *)
Lemma own_entries k o : JsObject.own k (JsObject.entries o) = JsObject.own k o.
Proof.
  unfold JsObject.entries, JsObject.own_order.
  rewrite own_app, own_index_part, own_string_part.
  destruct (JsObject.array_index k); [|done].
  by destruct (JsObject.own k o).
Qed.

(** Enumeration is a rearrangement of the own properties. *)
Lemma entries_Permutation o : JsObject.entries o ≡ₚ o.
Proof. apply own_order_Permutation. Qed.

Lemma entries_no_index o :
  Forall (λ e, JsObject.array_index e.1 = None) o → JsObject.entries o = o.
Proof. apply own_order_no_index. Qed.

Lemma foldl_set_fresh (base d : JsObject.t V) :
  NoDup (base ++ d).*1 →
  foldl (λ o kv, JsObject.set kv.1 kv.2 o) base d = base ++ d.
Proof.
  revert base. induction d as [|[k v] d IH]; intros base Hnd; simpl.
  - by rewrite app_nil_r.
  - rewrite set_not_elem_of.
    + rewrite IH; rewrite <- app_assoc; done.
    + rewrite fmap_app in Hnd. apply NoDup_app in Hnd as (_ & Hnd & _).
      intros Hin. apply (Hnd k Hin). left.
Qed.
End object_lemmas.

(** ** Editing a value after the run *)

(** C9. [handleDataUpdate] leaves the files, the fields, the status of the
    run, the selection and the tab as they are, keeps the number and order
    of the items, and on each item keeps [id], [fileName], [status] and
    [error]; an item with another id or without data is unchanged; in the
    data of an edited item every field other than the named one reads as
    before and the named one reads the new value. *)
Theorem handleDataUpdate_frame (i field value : string) (st : App.State) :
  let st' := App.handleDataUpdate i field value st in
  App.files st' = App.files st ∧ App.fields st' = App.fields st ∧
  App.status st' = App.status st ∧ App.selectedIds st' = App.selectedIds st ∧
  App.activeTab st' = App.activeTab st ∧
  Forall2 (λ old new,
      id new = id old ∧ fileName new = fileName old ∧
      status new = status old ∧ error new = error old ∧
      (id old ≠ i → new = old) ∧
      (data old = None → new = old) ∧
      (∀ d, data old = Some d →
         ∃ d', data new = Some d' ∧
               (∀ k, k ≠ field → JsObject.own k d' = JsObject.own k d) ∧
               (id old = i → JsObject.own field d' = Some (Js.VStr value))))
    (App.results st) (App.results st').
Proof.
  simpl. repeat split; try reflexivity.
  apply Forall2_fmap_r, Forall_Forall2_diag, Forall_forall.
  intros item _. unfold compose. destruct (data item) as [d|] eqn:Hd.
  - destruct (decide (id item = i)) as [Hi|Hi]; simpl.
    + repeat split; try done.
      intros d0 [= <-]. eexists. split; [done|]. split.
      * intros k Hk. unfold JsObject.spread.
        by rewrite own_set, decide_False, own_entries.
      * intros _. by rewrite own_set, decide_True.
    + repeat split; try done.
      intros d0 ?. exists d0. split; [congruence|]. split; [done|]. done.
  - repeat split; try done.
Qed.

(** ** The extraction run *)

Section run_lemmas.
Context `{!Services World}.
Implicit Types (st : App.State) (w : World) (fs : list File).

Lemma initialResults_spec fs w :
  Forall2 (λ file item, ∃ i, item = pending_item i (name file))
    fs (App.initialResults fs w).1.
Proof.
  revert w. induction fs as [|file fs IH]; intros w; simpl; [constructor|].
  destruct (generateId w) as [i w1].
  specialize (IH w1). destruct (App.initialResults fs w1) as [rest w2].
  simpl in *. constructor; [by exists i|done].
Qed.

Lemma alter_middle (f : ExtractedData → ExtractedData) done item todo :
  alter f (length done) (done ++ item :: todo) = done ++ f item :: todo.
Proof. rewrite alter_app_r_alt by lia. by rewrite Nat.sub_diag. Qed.

(** The loop invariant: the items before [i] are settled, the others are
    as the start left them, and the Store shows the local array. *)
Lemma extraction_loop_spec flds rest :
  ∀ done todo st w log,
    length todo = length rest →
    App.results st = done ++ todo →
    let r := App.extraction_loop flds rest (length done) (done ++ todo) st w log in
    ∃ answers,
      length answers = length rest ∧
      App.calls r = log ++ zip_with (λ file o, (file, flds, o)) rest answers ∧
      App.results (App.state r) = done ++ zip_with committed answers todo ∧
      App.status (App.state r) = completed ∧
      App.files (App.state r) = App.files st ∧
      App.fields (App.state r) = App.fields st ∧
      App.selectedIds (App.state r) = App.selectedIds st ∧
      App.activeTab (App.state r) = App.activeTab st.
Proof.
  induction rest as [|file rest IH]; intros done todo st w log Hlen Hres.
  - destruct todo; [|done]. exists []. simpl.
    rewrite app_nil_r in Hres. rewrite !app_nil_r. by repeat split.
  - destruct todo as [|item todo]; [done|]. simpl.
    destruct (extractDataFromPdf file flds w) as [o w'] eqn:Hcall.
    rewrite !alter_middle.
    set (it' := App.settle o (with_status Status.processing item)).
    set (st' := App.setResults (done ++ it' :: todo) _).
    destruct (IH (done ++ [it']) todo st' w' (log ++ [(file, flds, o)]))
      as (answers & Hl & Hcalls & Hresults & Hrest).
    { by simplify_eq/=. }
    { subst st'. simpl. by rewrite <- app_assoc. }
    replace (length (done ++ [it'])) with (S (length done)) in *
      by (rewrite length_app; simpl; lia).
    replace ((done ++ [it']) ++ todo) with (done ++ it' :: todo) in *
      by (by rewrite <- app_assoc).
    exists (o :: answers). simpl. split; [by rewrite Hl|].
    split; [by rewrite Hcalls, <- app_assoc|].
    split; [by rewrite Hresults, <- app_assoc|]. exact Hrest.
Qed.

Lemma startExtraction_spec st w :
  App.files st ≠ [] → App.fields st ≠ [] →
  let r := App.startExtraction st w in
  ∃ initial answers,
    Forall2 (λ file item, ∃ i, item = pending_item i (name file))
      (App.files st) initial ∧
    length answers = length (App.files st) ∧
    App.calls r = zip_with (λ file o, (file, App.fields st, o)) (App.files st) answers ∧
    App.results (App.state r) = zip_with committed answers initial ∧
    App.status (App.state r) = completed ∧
    App.files (App.state r) = App.files st ∧
    App.fields (App.state r) = App.fields st.
Proof.
  intros Hfiles Hfields. unfold App.startExtraction.
  rewrite !bool_decide_eq_false_2, orb_false_l
    by (rewrite length_zero_iff_nil; done).
  unfold App.prepare. simpl.
  pose proof (initialResults_spec (App.files st) w) as Hinit.
  destruct (App.initialResults (App.files st) w) as [initial w1]. simpl in Hinit.
  set (st1 := match initial with _ :: _ => _ | [] => _ end).
  destruct (extraction_loop_spec (App.fields st) (App.files st) [] initial st1 w1 [])
    as (answers & Hl & Hcalls & Hresults & Hstatus & Hf & Hflds & _).
  { symmetry. by eapply Forall2_length. }
  { subst st1. by destruct initial. }
  exists initial, answers. simpl in *.
  repeat split; try done.
  - rewrite Hf. subst st1. by destruct initial.
  - rewrite Hflds. subst st1. by destruct initial.
Qed.

Lemma committed_pending o i n :
  committed o (pending_item i n)
  = match o with
    | Returned d =>
        {| id := i; fileName := n; status := Status.success;
           data := Some d; error := None |}
    | Threw m =>
        {| id := i; fileName := n; status := Status.error;
           data := None; error := Some (App.error_message m) |}
    end.
Proof. by destruct o. Qed.

(** Stepping through the [await]s with the answers of the service, and
    nothing else in between, is the run of [startExtraction]. *)
Lemma drive_iteration flds rest :
  ∀ before updated st w log,
    let '(r, st') := App.iteration (before ++ rest) flds (length before) updated st in
    App.drive (length rest) r st' w
    = Some (App.state (App.extraction_loop flds rest (length before) updated st w log),
            App.world (App.extraction_loop flds rest (length before) updated st w log)).
Proof.
  induction rest as [|file rest IH]; intros before updated st w log.
  - unfold App.iteration.
    rewrite lookup_ge_None_2 by (rewrite app_nil_r; lia). done.
  - unfold App.iteration. rewrite list_lookup_middle by done. simpl.
    rewrite list_lookup_middle by done.
    destruct (extractDataFromPdf file flds w) as [o w'] eqn:Hcall.
    unfold App.resume. simpl.
    specialize (IH (before ++ [file])
                  (alter (App.settle o) (length before)
                     (alter (with_status Status.processing) (length before) updated))
                  (App.setResults
                     (alter (App.settle o) (length before)
                        (alter (with_status Status.processing) (length before) updated))
                     (App.setResults
                        (alter (with_status Status.processing) (length before) updated) st))
                  w' (log ++ [(file, flds, o)])).
    rewrite <- app_assoc, length_app, Nat.add_1_r in IH. simpl in IH.
    destruct (App.iteration _ _ _ _ _) as [r' st']. exact IH.
Qed.

(** X28. Run one [await] at a time, fed with the answers of the service
    and with no other event in between, the step-by-step run ends after as
    many answers as there are documents, in the state and the world of the
    sequential run. *)
Lemma drive_start st w :
  App.drive (length (App.files st)) (App.start st w).1.1 (App.start st w).1.2
    (App.start st w).2
  = Some (App.state (App.startExtraction st w), App.world (App.startExtraction st w)).
Proof.
  unfold App.start, App.startExtraction.
  destruct (_ || _); [by destruct (App.files st)|].
  destruct (App.prepare st w) as [[initial st1] w1]. simpl.
  pose proof (drive_iteration (App.fields st) (App.files st) [] initial st1 w1 [])
    as H. simpl in H.
  by destruct (App.iteration _ _ _ _ _).
Qed.
End run_lemmas.

(** C1. For every batch of [N ≥ 1] documents and non-empty FieldSet, when
    [startExtraction] completes the Store holds exactly [N] items, the item
    at each position carries the name of the document at that position,
    every item is in state [success] or [error], and the run is marked
    completed. A batch of no document is the configuration the caller has to
    prevent, and does: the start button is disabled then, and the function,
    were it called, would return at once. *)
Theorem startExtraction_store `{!Services World} (st : App.State) (w : World) :
  App.fields st ≠ [] →
  let r := App.startExtraction st w in
  (App.files st ≠ [] →
     length (App.results (App.state r)) = length (App.files st) ∧
     fileName <$> App.results (App.state r) = name <$> App.files st ∧
     Forall (λ item, Status.terminal (status item) = true) (App.results (App.state r)) ∧
     App.status (App.state r) = completed) ∧
  (App.files st = [] → App.state r = st ∧ App.start_disabled st = true).
Proof.
  intros Hfields r. split.
  - intros Hfiles.
    destruct (startExtraction_spec st w Hfiles Hfields)
      as (initial & answers & Hinit & Hlen & _ & Hres & Hstatus & _).
    fold r in Hres, Hstatus. rewrite Hres.
    assert (Hshape : Forall2 (λ file item, fileName item = name file ∧
                                Status.terminal (status item) = true)
                       (App.files st) (zip_with committed answers initial)).
    { clear Hres Hfiles. revert answers Hlen.
      induction Hinit as [|file item fs initial [i ->] _ IH]; intros answers Hlen.
      - destruct answers; [constructor|done].
      - destruct answers as [|o answers]; [done|]. simpl. constructor.
        + rewrite committed_pending. by destruct o.
        + apply IH. by simplify_eq/=. }
    split; [symmetry; by eapply Forall2_length|].
    split; [|split; [|done]].
    + clear -Hshape. revert Hshape.
      generalize (zip_with committed answers initial) (App.files st).
      induction 1 as [|???? [? _] _ IH]; [done|]. csimpl. by f_equal.
    + clear -Hshape. revert Hshape.
      generalize (zip_with committed answers initial) (App.files st).
      induction 1 as [|???? [_ ?] _ IH]; by constructor.
  - intros Hnil. subst r. rewrite guard_leaves_state by by left.
    split; [done|]. unfold App.start_disabled. rewrite Hnil. simpl.
    by rewrite orb_true_r.
Qed.

Lemma startExtraction_store_witness :
  let r := App.startExtraction Sample.two_files Sample.fail_then_answer in
  length (App.results (App.state r)) = length (App.files Sample.two_files) ∧
  fileName <$> App.results (App.state r) = name <$> App.files Sample.two_files ∧
  Forall (λ item, Status.terminal (status item) = true) (App.results (App.state r)) ∧
  App.status (App.state r) = completed.
Proof.
  apply (startExtraction_store Sample.two_files Sample.fail_then_answer);
    vm_compute; congruence.
Defined.



(** ** Results that arrive late *)

(** C6, as stated, fails: run A waits for its first answer; the Reset
    button is rendered, the user resets, chooses [b.pdf] and starts run B,
    the start button being enabled again; the result of the superseded run A
    arrives while run B waits, and the Store of run B is replaced by the
    array of run A. *)
Lemma stale_completion_overwrites_store :
  let '(_, store_A, _) := Sample.run_A in
  let '(_, store_B, _) := Sample.run_B in
  match Sample.run_A.1.1 with
  | Some A =>
      let after := (App.resume (Returned (Sample.invoice "7")) A store_B).2 in
      App.reset_rendered store_A = true ∧
      App.start_disabled
        (App.handleFilesSelected [Sample.b_pdf] (App.handleReset true store_A))
      = false ∧
      fileName <$> App.results store_B = ["b.pdf"] ∧
      fileName <$> App.results after = ["a.pdf"] ∧
      App.results after ≠ App.results store_B
  | None => False
  end.
Proof. vm_compute. repeat split; congruence. Qed.

(** C6, amended. The code tags no batch generation and drops no result:
    when the awaited result of any run arrives, superseded or not, the Store
    is replaced by that run's own array, with the result committed at the
    run's index and the next item, if there is one, marked [processing];
    what the Store held before plays no part. While the status is
    [extracting] the start button is disabled and the Reset button is
    rendered; a confirmed reset sets the status to [idle], files can be
    chosen again, and with files chosen the start button is enabled,
    whatever run is still waiting. *)
Theorem resume_overwrites_store (o : Outcome) (r : App.Suspended)
    (st : App.State) :
  let own_array := alter (App.settle o) (App.at_index r) (App.updatedResults r) in
  App.results (App.resume o r st).2
  = (if decide (S (App.at_index r) < length (App.run_files r))
     then alter (with_status Status.processing) (S (App.at_index r)) own_array
     else own_array) ∧
  (App.status st = extracting →
   App.start_disabled st = true ∧ App.reset_rendered st = true) ∧
  App.status (App.handleReset true st) = idle ∧
  App.upload_disabled (App.handleReset true st) = false ∧
  (∀ newFiles, newFiles ≠ [] → App.fields st ≠ [] →
     App.start_disabled (App.handleFilesSelected newFiles (App.handleReset true st))
     = false).
Proof.
  split; [|split; [|split; [|split]]].
  - unfold App.resume, App.iteration. simpl.
    destruct (decide _) as [Hlt|Hge].
    + apply lookup_lt_is_Some_2 in Hlt as [file ->]. done.
    + rewrite lookup_ge_None_2 by lia. done.
  - intros Hst. unfold App.start_disabled, App.reset_rendered. rewrite Hst. done.
  - done.
  - done.
  - intros newFiles Hnew Hfields.
    unfold App.start_disabled, App.handleFilesSelected. simpl.
    destruct newFiles as [|f newFiles]; [done|].
    rewrite filter_cons. rewrite decide_True by set_solver. simpl.
    by destruct (App.fields st).
Qed.

(** ** Export *)

Lemma foldl_seen_fresh (seen l : list string) :
  NoDup (seen ++ l) →
  foldl (λ h k, if decide (k ∈ h) then h else h ++ [k]) seen l = seen ++ l.
Proof.
  revert seen. induction l as [|k l IH]; intros seen Hnd; simpl.
  - by rewrite app_nil_r.
  - apply NoDup_app in Hnd as Hnd'. destruct Hnd' as (_ & Hdisj & _).
    rewrite decide_False by (intros Hin; apply (Hdisj k Hin); left).
    rewrite IH; rewrite <- app_assoc; done.
Qed.

Lemma foldl_seen_known (seen l : list string) :
  l ⊆ seen →
  foldl (λ h k, if decide (k ∈ h) then h else h ++ [k]) seen l = seen.
Proof.
  induction l as [|k l IH]; intros Hsub; simpl; [done|].
  rewrite decide_True by (apply Hsub; left).
  apply IH. intros x Hx. apply Hsub. by right.
Qed.

Lemma export_row_keys (item : ExtractedData) (d : Data) (fields : list string) :
  data item = Some d → JsObject.keys d = fields →
  NoDup fields → "FileName" ∉ fields →
  Forall (λ f, JsObject.array_index f = None) fields →
  JsObject.keys (ExcelService.export_row item) = "FileName" :: fields.
Proof.
  intros Hd Hkeys Hnd Hfn Hidx. unfold ExcelService.export_row. rewrite Hd. simpl.
  assert (Hd_idx : Forall (λ e : string * Js.Value, JsObject.array_index e.1 = None)
                     (JsObject.entries d)).
  { unfold JsObject.keys in Hkeys. rewrite <- Hkeys in Hidx.
    by apply Forall_fmap in Hidx. }
  rewrite foldl_set_fresh.
  - unfold JsObject.keys. rewrite entries_no_index.
    + simpl. by rewrite <- Hkeys.
    + constructor; [done|exact Hd_idx].
  - change (NoDup ("FileName" :: JsObject.keys d)).
    rewrite Hkeys. by constructor.
Qed.

Lemma json_to_sheet_header_uniform (hdr : list string) (rows : list Data) :
  NoDup hdr → rows ≠ [] → Forall (λ row, JsObject.keys row = hdr) rows →
  ExcelService.json_to_sheet_header rows = hdr.
Proof.
  intros Hnd Hne Hrows. destruct Hrows as [|row rows Hrow Hrows]; [done|].
  unfold ExcelService.json_to_sheet_header. simpl.
  assert (ExcelService.add_keys [] row = hdr) as ->.
  { unfold ExcelService.add_keys. rewrite Hrow. by apply (foldl_seen_fresh []). }
  clear Hne Hrow. induction Hrows as [|row' rows Hrow _ IH]; simpl; [done|].
  unfold ExcelService.add_keys at 2. rewrite Hrow.
  rewrite foldl_seen_known by done. exact IH.
Qed.

(** C7, as stated, fails: the service answered the empty record for the
    one file of the batch, the item is a [success] item, and the exported
    table has the single column [FileName] whatever the FieldSet is. *)
Lemma export_of_empty_record_has_one_column :
  let st := Sample.empty_answer in
  App.fields st = ["Invoice Number"; "Total Amount"; "Date"] ∧
  status <$> App.results st = [Status.success] ∧
  ∃ rows, ExcelService.handleExportAll st
          = ExcelService.writeFile "all_extracted_data.xlsx" "Extracted Data"
              ["FileName"] rows.
Proof. vm_compute. repeat split. eexists. reflexivity. Qed.

(** C7, amended. The columns of the exported table are the keys of the row
    objects [{ FileName, ...data }] of the qualifying items, not the
    FieldSet. When the data of every qualifying item has exactly the
    FieldSet entries as keys, in FieldSet order, and no entry is [FileName]
    or an array index, the first column is [FileName] and the others are the
    FieldSet entries in order. When no item qualifies the export shows the
    alert [No data available to export.] and writes nothing. *)
Theorem exportToExcel_columns (items : list ExtractedData)
    (selectedIds : option (gset string)) (filename : string) (fields : list string) :
  NoDup fields → "FileName" ∉ fields →
  Forall (λ f, JsObject.array_index f = None) fields →
  Forall (λ item, ExcelService.exportable selectedIds item = true →
                  ∃ d, data item = Some d ∧ JsObject.keys d = fields) items →
  (Exists (λ item, ExcelService.exportable selectedIds item = true) items →
   ExcelService.exportToExcel items selectedIds filename
   = ExcelService.writeFile filename "Extracted Data" ("FileName" :: fields)
       (ExcelService.exportableData items selectedIds)) ∧
  (¬ Exists (λ item, ExcelService.exportable selectedIds item = true) items →
   ExcelService.exportToExcel items selectedIds filename
   = ExcelService.alert "No data available to export.").
Proof.
  intros Hnd Hfn Hidx Hitems.
  unfold ExcelService.exportToExcel, ExcelService.exportableData.
  assert (Hrows : Forall (λ row, JsObject.keys row = "FileName" :: fields)
                    (ExcelService.export_row <$>
                       List.filter (ExcelService.exportable selectedIds) items)).
  { apply Forall_fmap, Forall_forall. intros item Hin.
    apply list_elem_of_In, filter_In in Hin as [Hin Hex].
    apply list_elem_of_In in Hin.
    rewrite Forall_forall in Hitems.
    destruct (Hitems item Hin Hex) as (d & Hd & Hkeys).
    by eapply export_row_keys. }
  split.
  - intros Hsome.
    destruct (List.filter _ items) as [|item rest] eqn:Hfilter.
    { exfalso. apply Exists_exists in Hsome as (item & Hin & Hex).
      assert (In item (List.filter (ExcelService.exportable selectedIds) items))
        as Hin' by (apply filter_In; split; [by apply list_elem_of_In|done]).
      by rewrite Hfilter in Hin'. }
    rewrite bool_decide_eq_false_2 by done. f_equal.
    apply json_to_sheet_header_uniform; [by constructor|done|done].
  - intros Hnone.
    assert (List.filter (ExcelService.exportable selectedIds) items = []) as ->.
    { clear -Hnone. induction items as [|item items IH]; simpl; [done|].
      destruct (ExcelService.exportable selectedIds item) eqn:Hex.
      - exfalso. apply Hnone. by left.
      - apply IH. intros H. apply Hnone. by right. }
    done.
Qed.

Lemma exportToExcel_columns_witness :
  ExcelService.exportToExcel Sample.extracted None "all_extracted_data.xlsx"
  = ExcelService.writeFile "all_extracted_data.xlsx" "Extracted Data"
      ["FileName"; "Invoice Number"; "Total Amount"; "Date"]
      (ExcelService.exportableData Sample.extracted None).
Proof.
  apply (exportToExcel_columns Sample.extracted None "all_extracted_data.xlsx"
           ["Invoice Number"; "Total Amount"; "Date"]).
  - apply (bool_decide_unpack _). vm_compute. exact I.
  - apply (bool_decide_unpack _). vm_compute. exact I.
  - repeat constructor.
  - unfold Sample.extracted.
    repeat (apply Forall_cons; split; [intros _; eexists; split; reflexivity|]).
    apply Forall_nil. exact I.
  - left. reflexivity.
Defined.

(** ** The summary *)

Lemma forEach_snoc {A S} (body : S → A → Js.Completion S) (l : list A) (x : A) (s : S) :
  Js.forEach body (l ++ [x]) s = Js.bind (Js.forEach body l s) (λ s', body s' x).
Proof.
  revert s. induction l as [|y l IH]; intros s; simpl.
  - by destruct (body s x).
  - destruct (body s y) as [s'|e]; simpl; [apply IH|done].
Qed.

Lemma first_seen_snoc (l : list string) (k : string) :
  first_seen (l ++ [k])
  = if decide (k ∈ first_seen l) then first_seen l else first_seen l ++ [k].
Proof. unfold first_seen. by rewrite foldl_app. Qed.

Lemma elem_of_first_seen (l : list string) (k : string) :
  k ∈ first_seen l ↔ k ∈ l.
Proof.
  induction l as [|x l IH] using rev_ind; [done|].
  rewrite first_seen_snoc, elem_of_app, list_elem_of_singleton.
  destruct (decide (x ∈ first_seen l)) as [Hin|Hnot].
  - rewrite IH. split; [by left|]. intros [?| ->]; [done|]. by apply IH.
  - by rewrite elem_of_app, list_elem_of_singleton, IH.
Qed.

Lemma NoDup_first_seen (l : list string) : NoDup (first_seen l).
Proof.
  induction l as [|x l IH] using rev_ind; [constructor|].
  rewrite first_seen_snoc. destruct (decide _) as [|Hnot]; [done|].
  apply NoDup_app. split; [done|]. split; [|apply NoDup_singleton].
  intros y Hy ->%list_elem_of_singleton. done.
Qed.

Lemma first_seen_NoDup (l : list string) : NoDup l → first_seen l = l.
Proof. intros H. by apply (foldl_seen_fresh [] l). Qed.

Section grouping.
Context `{!Js.Engine} (r : ExcelSummary.Roles).
Implicit Types (l : list ExtractedData) (item : ExtractedData) (k : string).

Lemma members_snoc k l item :
  members r k (l ++ [item])
  = members r k l ++ (if decide (ExcelSummary.normalizedKey r item = k) then [item] else []).
Proof.
  unfold members. rewrite filter_app, filter_cons, filter_nil. done.
Qed.

Lemma members_nil_iff k l :
  members r k l = [] ↔ k ∉ ExcelSummary.normalizedKey r <$> l.
Proof.
  unfold members. induction l as [|item l IH]; csimpl.
  - split; [intros _; apply not_elem_of_nil|done].
  - rewrite filter_cons, not_elem_of_cons.
    destruct (decide (ExcelSummary.normalizedKey r item = k)) as [->|Hne].
    + split; [done|]. by intros [? _].
    + rewrite IH. split; [by intros ?; split|by intros [_ ?]].
Qed.

Lemma group_of_snoc_other k l item :
  ExcelSummary.normalizedKey r item ≠ k →
  group_of r k (l ++ [item]) = group_of r k l.
Proof.
  intros Hne. unfold group_of. rewrite members_snoc.
  by rewrite decide_False, app_nil_r.
Qed.

Lemma group_of_snoc_same l item :
  group_of r (ExcelSummary.normalizedKey r item) (l ++ [item])
  = Some (ExcelSummary.add_item r item
            (default (ExcelSummary.Group.fresh (ExcelSummary.customerText r item))
               (group_of r (ExcelSummary.normalizedKey r item) l))).
Proof.
  unfold group_of. rewrite members_snoc, decide_True by done.
  destruct (members r _ l) as [|first rest]; simpl; [done|].
  by rewrite foldl_app.
Qed.

Lemma group_item_known groups item g :
  JsObject.own (ExcelSummary.normalizedKey r item) groups = Some g →
  ExcelSummary.group_item r groups item
  = Js.Normal (JsObject.set (ExcelSummary.normalizedKey r item)
                 (ExcelSummary.add_item r item g) groups).
Proof.
  intros Hk. unfold ExcelSummary.group_item, JsObject.Get. rewrite Hk.
  simpl. by rewrite Hk.
Qed.

Lemma group_item_new groups item :
  JsObject.own (ExcelSummary.normalizedKey r item) groups = None →
  JsObject.inherited (ExcelSummary.normalizedKey r item) = false →
  ExcelSummary.group_item r groups item
  = Js.Normal (JsObject.set (ExcelSummary.normalizedKey r item)
                 (ExcelSummary.add_item r item
                    (ExcelSummary.Group.fresh (ExcelSummary.customerText r item)))
                 (JsObject.set (ExcelSummary.normalizedKey r item)
                    (ExcelSummary.Group.fresh (ExcelSummary.customerText r item))
                    groups)).
Proof.
  intros Hk Hproto. unfold ExcelSummary.group_item, JsObject.Get.
  rewrite Hk, Hproto. simpl. by rewrite own_set, decide_True.
Qed.

Lemma group_item_inherited groups item :
  JsObject.own (ExcelSummary.normalizedKey r item) groups = None →
  JsObject.inherited (ExcelSummary.normalizedKey r item) = true →
  ExcelSummary.group_item r groups item = Js.Throw "TypeError".
Proof.
  intros Hk Hproto. unfold ExcelSummary.group_item, JsObject.Get.
  rewrite Hk, Hproto. simpl. by rewrite ?Hk, ?Hproto.
Qed.

(** The state of [groups] after the scan of [l]: the keys are those seen,
    in order of first occurrence, and each key holds the group of its
    members. *)
Lemma forEach_group_item l :
  Forall (λ item, JsObject.inherited (ExcelSummary.normalizedKey r item) = false) l →
  ∃ groups,
    Js.forEach (ExcelSummary.group_item r) l [] = Js.Normal groups ∧
    groups.*1 = first_seen (ExcelSummary.normalizedKey r <$> l) ∧
    ∀ k, JsObject.own k groups = group_of r k l.
Proof.
  induction l as [|item l IH] using rev_ind; intros Hok.
  - exists []. by repeat split.
  - apply Forall_app in Hok as [Hl Hitem]. rewrite Forall_singleton in Hitem.
    destruct (IH Hl) as (groups & Hrun & Hkeys & Hown). clear IH.
    rewrite forEach_snoc, Hrun. simpl.
    set (k0 := ExcelSummary.normalizedKey r item) in *.
    rewrite fmap_app.
    change (ExcelSummary.normalizedKey r <$> [item]) with [k0].
    rewrite first_seen_snoc, <- Hkeys.
    destruct (JsObject.own k0 groups) as [g|] eqn:Hk0.
    + assert (k0 ∈ groups.*1) as Hin.
      { destruct (decide (k0 ∈ groups.*1)) as [|Hnot]; [done|].
        apply own_None in Hnot. congruence. }
      rewrite (group_item_known _ _ g) by done. fold k0.
      eexists. split; [done|].
      rewrite set_keys_elem_of, decide_True by done. split; [done|].
      intros k. rewrite own_set. destruct (decide (k0 = k)) as [<-|Hne].
      * subst k0. by rewrite group_of_snoc_same, <- Hown, Hk0.
      * by rewrite group_of_snoc_other, Hown.
    + assert (k0 ∉ groups.*1) as Hnot by by apply own_None.
      rewrite group_item_new by done. fold k0.
      eexists. split; [done|].
      rewrite decide_False by done.
      rewrite set_keys_elem_of
        by (rewrite set_not_elem_of, fmap_app by done; set_solver).
      rewrite set_not_elem_of, fmap_app by done. split; [done|].
      intros k. rewrite own_set. destruct (decide (k0 = k)) as [<-|Hne].
      * subst k0. by rewrite group_of_snoc_same, <- Hown, Hk0.
      * rewrite own_app, group_of_snoc_other, <- Hown by done. simpl.
        rewrite decide_False by done. by destruct (JsObject.own k groups).
Qed.

Lemma foldl_add_item_shape (g : ExcelSummary.Group.t) l :
  let g' := foldl (λ g item, ExcelSummary.add_item r item g) g l in
  ExcelSummary.Group.customerName g' = ExcelSummary.Group.customerName g ∧
  ExcelSummary.Group.ids g' = ExcelSummary.Group.ids g ++ (id <$> l) ∧
  ExcelSummary.Group.files g' = ExcelSummary.Group.files g ++ (fileName <$> l).
Proof.
  revert g. induction l as [|item l IH]; intros g; simpl.
  - by rewrite !app_nil_r.
  - destruct (IH (ExcelSummary.add_item r item g)) as (-> & -> & ->). simpl.
    by rewrite <- !app_assoc.
Qed.
End grouping.

Section summary.
Context `{!Js.Engine}.

Lemma summaryRows_run (items : list ExtractedData) (selectedIds : gset string)
    (fields : list string) :
  let r := ExcelSummary.resolve fields in
  let selected := ExcelSummary.selectedItems items selectedIds in
  Forall (λ item, JsObject.inherited (ExcelSummary.normalizedKey r item) = false)
    selected →
  ∃ groups,
    ExcelSummary.summaryRows items selectedIds fields
    = Js.Normal (ExcelSummary.row_of <$> JsObject.entries groups) ∧
    groups.*1 = first_seen (ExcelSummary.normalizedKey r <$> selected) ∧
    ∀ k, JsObject.own k groups = group_of r k selected.
Proof.
  intros r selected Hok. unfold ExcelSummary.summaryRows. fold selected r.
  destruct selected as [|item rest] eqn:Hsel.
  - exists []. by repeat split.
  - rewrite bool_decide_eq_false_2 by done.
    destruct (forEach_group_item r (item :: rest) Hok) as (groups & -> & Hkeys & Hown).
    by exists groups.
Qed.

Lemma row_keys (groups : JsObject.t ExcelSummary.Group.t) :
  ExcelSummary.key <$> (ExcelSummary.row_of <$> JsObject.entries groups)
  = JsObject.key_order groups.*1.
Proof.
  rewrite <- list_fmap_compose. unfold JsObject.entries.
  by rewrite <- own_order_fmap.
Qed.

(** C4, amended. The GroupRecords come in the enumeration order of the
    keys of a plain object: first the keys that are array indices (decimal
    integers below 2^32 - 1 without leading zero), in ascending numeric
    order, then the other keys in the order in which each key's first
    contributing item occurs in the scan. When no key is an array index the
    order is the first-seen order. (Keys naming a member of
    [Object.prototype] are left aside.) *)
Theorem summaryRows_order (items : list ExtractedData) (selectedIds : gset string)
    (fields : list string) :
  let r := ExcelSummary.resolve fields in
  let selected := ExcelSummary.selectedItems items selectedIds in
  let seen := first_seen (ExcelSummary.normalizedKey r <$> selected) in
  let indices := (JsObject.index_part (λ k, k) seen).*2 in
  Forall (λ item, JsObject.inherited (ExcelSummary.normalizedKey r item) = false)
    selected →
  ∃ rows,
    ExcelSummary.summaryRows items selectedIds fields = Js.Normal rows ∧
    ExcelSummary.key <$> rows
    = indices ++ filter (λ k, JsObject.array_index k = None) seen ∧
    indices ≡ₚ filter (λ k, JsObject.array_index k ≠ None) seen ∧
    StronglySorted index_le indices ∧
    (Forall (λ k, JsObject.array_index k = None) seen →
     ExcelSummary.key <$> rows = seen).
Proof.
  intros r selected seen indices Hok.
  destruct (summaryRows_run items selectedIds fields Hok) as (groups & Hrun & Hkeys & _).
  fold r selected seen in Hkeys.
  eexists. split; [exact Hrun|]. rewrite row_keys, Hkeys.
  split; [done|]. split; [apply index_part_Permutation|].
  split; [apply (index_part_sorted (λ k, k))|].
  intros Hno. by apply (own_order_no_index (λ k, k)).
Qed.

(** C3, amended. Leaving aside keys that name a member of
    [Object.prototype]: summarize groups each filtered item under
    [toLowerCase(trim(String(v)))] when its Customer-role value [v] is
    truthy (a non-empty string, white space included, a non-zero number, or
    the member of [Object.prototype] read when the Customer field bears its
    name and the record has no value of its own there), and under
    [toLowerCase(trim("Unknown"))], which is ["unknown"], when [v] is
    absent, [null], the empty string or a falsy number. The records have
    pairwise distinct keys; the record of a key lists the ids of all
    filtered items of that key in scan order, counts them, and shows as
    customerName the text [String(v || 'Unknown')] of the first of them; so
    two items whose values differ only by case or surrounding white space
    land in the same record. *)
Theorem summaryRows_groups_by_customer (items : list ExtractedData)
    (selectedIds : gset string) (fields : list string) :
  let r := ExcelSummary.resolve fields in
  let selected := ExcelSummary.selectedItems items selectedIds in
  Forall (λ item, JsObject.inherited (ExcelSummary.normalizedKey r item) = false)
    selected →
  ∃ rows,
    ExcelSummary.summaryRows items selectedIds fields = Js.Normal rows ∧
    NoDup (ExcelSummary.key <$> rows) ∧
    Js.toLowerCase (Js.trim "Unknown") = "unknown" ∧
    (∀ item, item ∈ selected →
       ExcelSummary.normalizedKey r item
       = Js.toLowerCase (Js.trim
           match ExcelSummary.customerVal r item with
           | JsObject.Own v => if Js.ToBoolean v then Js.ToString v else "Unknown"
           | JsObject.Inherited =>
               Js.prototype_text (ExcelSummary.property_name (ExcelSummary.customer r))
           | JsObject.Undefined => "Unknown"
           end) ∧
       ∃ row first rest,
         row ∈ rows ∧
         ExcelSummary.key row = ExcelSummary.normalizedKey r item ∧
         members r (ExcelSummary.normalizedKey r item) selected = first :: rest ∧
         ExcelSummary.ids row = id <$> first :: rest ∧
         ExcelSummary.fileCount row = length (first :: rest) ∧
         ExcelSummary.customerName row = ExcelSummary.customerText r first) ∧
    (∀ item item', item ∈ selected → item' ∈ selected →
       Js.toLowerCase (Js.trim (ExcelSummary.customerText r item))
       = Js.toLowerCase (Js.trim (ExcelSummary.customerText r item')) →
       ∃ row, row ∈ rows ∧ id item ∈ ExcelSummary.ids row ∧
              id item' ∈ ExcelSummary.ids row).
Proof.
  intros r selected Hok.
  destruct (summaryRows_run items selectedIds fields Hok) as (groups & Hrun & Hkeys & Hown).
  fold r selected in Hkeys, Hown.
  eexists. split; [exact Hrun|].
  assert (Hrow : ∀ item, item ∈ selected →
            ∃ row first rest,
              row ∈ ExcelSummary.row_of <$> JsObject.entries groups ∧
              ExcelSummary.key row = ExcelSummary.normalizedKey r item ∧
              members r (ExcelSummary.normalizedKey r item) selected = first :: rest ∧
              ExcelSummary.ids row = id <$> first :: rest ∧
              ExcelSummary.fileCount row = length (first :: rest) ∧
              ExcelSummary.customerName row = ExcelSummary.customerText r first).
  { intros item Hin. set (k := ExcelSummary.normalizedKey r item).
    assert (item ∈ members r k selected) as Hmem
      by (by apply list_elem_of_filter).
    destruct (members r k selected) as [|first rest] eqn:Hmembers;
      [by apply elem_of_nil in Hmem|].
    specialize (Hown k). unfold group_of in Hown. rewrite Hmembers in Hown.
    set (g := foldl _ _ _) in Hown.
    destruct (foldl_add_item_shape r
                (ExcelSummary.Group.fresh (ExcelSummary.customerText r first))
                (first :: rest)) as (Hname & Hids & Hfiles).
    fold g in Hname, Hids, Hfiles.
    exists (ExcelSummary.row_of (k, g)), first, rest.
    split.
    { apply list_elem_of_fmap. exists (k, g). split; [done|].
      rewrite entries_Permutation. by apply own_Some_elem_of. }
    split; [done|]. split; [done|]. split; [exact Hids|].
    split; [|exact Hname].
    unfold ExcelSummary.row_of, ExcelSummary.fileCount. simpl.
    rewrite Hfiles. simpl. by rewrite length_fmap. }
  split; [|split; [|split]].
  - rewrite row_keys, Hkeys.
    unfold JsObject.key_order. rewrite own_order_Permutation.
    apply NoDup_first_seen.
  - by rewrite Js.toLowerCase_ascii.
  - intros item Hin. split; [|by apply Hrow].
    unfold ExcelSummary.normalizedKey, ExcelSummary.customerText.
    destruct (ExcelSummary.customerVal r item) as [v| |]; simpl; [|done..].
    by destruct (Js.ToBoolean v).
  - intros item item' Hin Hin' Hsame.
    destruct (Hrow item Hin) as (row & first & rest & Hrows & _ & Hmembers & Hids & _).
    exists row. split; [done|]. rewrite Hids, <- Hmembers.
    split; apply list_elem_of_fmap_2, list_elem_of_filter; by split.
Qed.
End summary.

(** The summary of sample records, computed by the reference engine. *)

Section summary_samples.
#[local] Existing Instance Js.reference.

(** C4, as stated, fails: under the default fields the invoice number
    stands in for the customer, the invoices 1002 and 1001 are scanned in
    that order, and the record of 1001 comes first. *)
Lemma summaryRows_numeric_keys_reordered :
  let r := ExcelSummary.resolve (App.fields App.initial) in
  first_seen (ExcelSummary.normalizedKey r <$>
                ExcelSummary.selectedItems Sample.numbered Sample.both)
  = ["1002"; "1001"] ∧
  ∃ rows, ExcelSummary.summaryRows Sample.numbered Sample.both (App.fields App.initial)
          = Js.Normal rows ∧
          ExcelSummary.key <$> rows = ["1001"; "1002"].
Proof. vm_compute. split; [reflexivity|]. eexists. split; reflexivity. Qed.

Lemma summaryRows_order_witness :
  ∃ rows,
    ExcelSummary.summaryRows Sample.numbered Sample.both (App.fields App.initial)
    = Js.Normal rows ∧
    ExcelSummary.key <$> rows = ["1001"; "1002"].
Proof.
  destruct (summaryRows_order Sample.numbered Sample.both (App.fields App.initial))
    as (rows & Hrun & Hkeys & _).
  - apply (bool_decide_unpack _). vm_compute. exact I.
  - exists rows. split; [exact Hrun|]. rewrite Hkeys. vm_compute. reflexivity.
Defined.

(** C3, as stated, fails: a customer value of two blanks is empty after
    trimming, and its item is grouped under the empty key with the blanks
    as customer name, not under [Unknown]. *)
Lemma summaryRows_blank_customer_not_unknown :
  Js.trim "  " = "" ∧
  ∃ row,
    ExcelSummary.summaryRows Sample.blank_customer {[ "id0" ]} ["Customer"; "Job No"]
    = Js.Normal [row] ∧
    ExcelSummary.key row = "" ∧
    ExcelSummary.key row ≠ Js.toLowerCase (Js.trim "Unknown") ∧
    ExcelSummary.customerName row = "  ".
Proof.
  split; [reflexivity|]. eexists. split; [vm_compute; reflexivity|].
  vm_compute. repeat split; congruence.
Qed.

Lemma summaryRows_groups_by_customer_witness :
  ∃ rows,
    ExcelSummary.summaryRows Sample.acme Sample.all_three ["Customer"] = Js.Normal rows ∧
    ∃ row, row ∈ rows ∧ "id0" ∈ ExcelSummary.ids row ∧ "id2" ∈ ExcelSummary.ids row.
Proof.
  destruct (summaryRows_groups_by_customer Sample.acme Sample.all_three ["Customer"])
    as (rows & Hrun & _ & _ & _ & Hsame).
  - apply (bool_decide_unpack _). vm_compute. exact I.
  - exists rows. split; [exact Hrun|].
    apply (Hsame
             {| id := "id0"; fileName := "a.pdf"; status := Status.success;
                data := Some [("Customer", Js.VStr "Acme Corp")]; error := None |}
             {| id := "id2"; fileName := "c.pdf"; status := Status.success;
                data := Some [("Customer", Js.VStr "ACME CORP")]; error := None |}).
    + vm_compute. left.
    + vm_compute. right. right. left.
    + vm_compute. reflexivity.
Defined.
End summary_samples.

(** ** The examples of the specification, run on the model *)

Section examples.
#[local] Existing Instance Js.reference.

(** Two items of one customer, written [Acme] and [acme]: one record, the
    job numbers joined in order, the equal totals once, two files. *)
Example summaryRows_acme_two_jobs :
  ExcelSummary.summaryRows
    [ {| id := "A"; fileName := "a.pdf"; status := Status.success;
         data := Some [("Customer", Js.VStr "Acme"); ("Job No", Js.VStr "J1");
                       ("Grand Total", Js.VStr "100")];
         error := None |};
      {| id := "B"; fileName := "b.pdf"; status := Status.success;
         data := Some [("Customer", Js.VStr "acme"); ("Job No", Js.VStr "J2");
                       ("Grand Total", Js.VStr "100")];
         error := None |} ]
    {[ "A"; "B" ]} ["Customer"; "Job No"; "Grand Total"]
  = Js.Normal
      [ {| ExcelSummary.key := "acme"; ExcelSummary.customerName := "Acme";
           ExcelSummary.jobNos := "J1, J2"; ExcelSummary.advanceTotal := "-";
           ExcelSummary.paymentTerms := "-"; ExcelSummary.invoiceDate := "-";
           ExcelSummary.grandTotal := "100"; ExcelSummary.fileCount := 2;
           ExcelSummary.ids := ["A"; "B"] |} ].
Proof. vm_compute. reflexivity. Qed.

(** The three spellings of [Acme Corp] give one record named after the
    first. *)
Example summaryRows_acme_corp :
  ExcelSummary.summaryRows Sample.acme Sample.all_three ["Customer"]
  = Js.Normal
      [ {| ExcelSummary.key := "acme corp"; ExcelSummary.customerName := "Acme Corp";
           ExcelSummary.jobNos := "-"; ExcelSummary.advanceTotal := "-";
           ExcelSummary.paymentTerms := "-"; ExcelSummary.invoiceDate := "-";
           ExcelSummary.grandTotal := "-"; ExcelSummary.fileCount := 3;
           ExcelSummary.ids := ["id0"; "id1"; "id2"] |} ].
Proof. vm_compute. reflexivity. Qed.

(** An empty selection gives no record. *)
Example summaryRows_empty_selection :
  ExcelSummary.summaryRows Sample.acme ∅ ["Customer"] = Js.Normal [].
Proof. vm_compute. reflexivity. Qed.

(** A customer whose lower-cased name is a member of [Object.prototype]
    finds that member in [groups]: no group is created and the scan ends in
    a [TypeError]. The statements on the summary leave such keys aside. *)
Example summaryRows_inherited_key_throws :
  ExcelSummary.summaryRows
    [ {| id := "A"; fileName := "a.pdf"; status := Status.success;
         data := Some [("Customer", Js.VStr "Constructor")]; error := None |} ]
    {[ "A" ]} ["Customer"]
  = Js.Throw "TypeError".
Proof. vm_compute. reflexivity. Qed.

(** A customer padded with no-break spaces (U+00A0, two bytes each) joins
    the record of the same customer written without them. *)
Example summaryRows_no_break_space :
  let padded := utf8 [194; 160]%N +:+ "ACME" +:+ utf8 [194; 160]%N in
  ∃ row,
    ExcelSummary.summaryRows
      [ {| id := "A"; fileName := "a.pdf"; status := Status.success;
           data := Some [("Customer", Js.VStr "Acme")]; error := None |};
        {| id := "B"; fileName := "b.pdf"; status := Status.success;
           data := Some [("Customer", Js.VStr padded)]; error := None |} ]
      {[ "A"; "B" ]} ["Customer"]
    = Js.Normal [row] ∧
    ExcelSummary.key row = "acme" ∧ ExcelSummary.ids row = ["A"; "B"].
Proof. eexists. vm_compute. by repeat split. Qed.

(** A Customer field named like a member of [Object.prototype], on a record
    without a value of its own there: the member is read, and its text names
    the customer. *)
Example summaryRows_inherited_customer :
  ∃ row,
    ExcelSummary.summaryRows
      [ {| id := "A"; fileName := "a.pdf"; status := Status.success;
           data := Some []; error := None |} ]
      {[ "A" ]} ["constructor"]
    = Js.Normal [row] ∧
    ExcelSummary.customerName row = Js.prototype_text "constructor" ∧
    ExcelSummary.key row
    = Js.toLowerCase (Js.trim (Js.prototype_text "constructor")).
Proof. eexists. vm_compute. by repeat split. Qed.

(** A run over two files, the first of which fails. *)
Example startExtraction_fail_then_answer :
  App.results (App.state (App.startExtraction Sample.two_files Sample.fail_then_answer))
  = [ {| id := "id0"; fileName := "a.pdf"; status := Status.error;
         data := None; error := Some "API Key is missing" |};
      {| id := "id1"; fileName := "b.pdf"; status := Status.success;
         data := Some (Sample.invoice "7"); error := None |} ].
Proof. vm_compute. reflexivity. Qed.
End examples.

(** * Further properties of the code *)

(** ** The run: what it leaves in the Store *)

(** X1. After a run over at least one document with a non-empty FieldSet,
    every item carries data exactly when its status is [success] and an
    error text exactly when its status is [error]. *)
Theorem startExtraction_consistent `{!Services World} (st : App.State) (w : World) :
  App.files st ≠ [] → App.fields st ≠ [] →
  Forall consistent (App.results (App.state (App.startExtraction st w))).
Proof.
  intros Hfiles Hfields.
  destruct (startExtraction_spec st w Hfiles Hfields)
    as (initial & answers & Hinit & _ & _ & -> & _).
  apply Forall_forall. intros item Hin.
  apply list_elem_of_lookup in Hin as [j Hj].
  apply lookup_zip_with_Some in Hj as (o & item0 & -> & _ & Hitem0).
  destruct (Forall2_lookup_r _ _ _ _ _ Hinit Hitem0) as (file & _ & ident & ->).
  rewrite committed_pending. unfold consistent.
  destruct o; simpl; (split; split; intros H; try done;
                       try (by eexists); by destruct H).
Qed.

Lemma startExtraction_consistent_witness :
  Forall consistent
    (App.results (App.state (App.startExtraction Sample.two_files Sample.fail_then_answer))).
Proof.
  apply (startExtraction_consistent Sample.two_files Sample.fail_then_answer).
  - vm_compute. congruence.
  - vm_compute. congruence.
Defined.

(** X2. Editing a value keeps that agreement: [handleDataUpdate] gives data
    to no item that had none and changes no status and no error text. *)
Theorem handleDataUpdate_consistent (i field value : string) (st : App.State) :
  Forall consistent (App.results st) →
  Forall consistent (App.results (App.handleDataUpdate i field value st)).
Proof.
  intros H. simpl. apply Forall_fmap. eapply Forall_impl; [exact H|].
  intros item [Hd He]. simpl.
  destruct (data item) as [d|] eqn:Hdata; [|by split; rewrite ?Hdata].
  destruct (decide (id item = i)); [|by split; rewrite ?Hdata].
  split; simpl; [|done]. split; [intros _; by apply Hd|by eexists].
Qed.

Lemma handleDataUpdate_consistent_witness :
  Forall consistent
    (App.results (App.handleDataUpdate "id0" "Date" "2024-01-31"
                    (App.setResults Sample.extracted App.initial))).
Proof.
  apply (handleDataUpdate_consistent "id0" "Date" "2024-01-31"
           (App.setResults Sample.extracted App.initial)).
  unfold Sample.extracted. simpl.
  repeat (apply Forall_cons; split;
          [split; simpl; split; intros H; try done; try (by eexists); by destruct H|]).
  apply Forall_nil. exact I.
Defined.

(** X3. A run starts from scratch: with documents and fields given, the
    run and its final state do not depend on the items, the selection, the
    status or the tab that were there before. *)
Theorem startExtraction_discards_prior `{!Services World} (st st' : App.State)
    (w : World) :
  App.files st' = App.files st → App.fields st' = App.fields st →
  App.files st ≠ [] → App.fields st ≠ [] →
  App.startExtraction st' w = App.startExtraction st w.
Proof.
  intros Hf Hflds Hfiles Hfields.
  destruct st as [fs flds rs s sel tab], st' as [fs' flds' rs' s' sel' tab'].
  simpl in *. subst fs' flds'.
  unfold App.startExtraction, App.prepare. simpl.
  rewrite !bool_decide_eq_false_2, orb_false_l
    by (rewrite length_zero_iff_nil; done).
  destruct (App.initialResults fs w) as [initial w1].
  by destruct initial.
Qed.

Lemma startExtraction_discards_prior_witness :
  App.startExtraction
    (App.handleSelect "id1" (App.setResults Sample.extracted Sample.two_files))
    Sample.fail_then_answer
  = App.startExtraction Sample.two_files Sample.fail_then_answer.
Proof.
  apply (startExtraction_discards_prior Sample.two_files
           (App.handleSelect "id1" (App.setResults Sample.extracted Sample.two_files))
           Sample.fail_then_answer).
  - reflexivity.
  - reflexivity.
  - vm_compute. congruence.
  - vm_compute. congruence.
Defined.

(** X4. A run sets the selection once, when it starts: up to the first
    [await] the selection becomes the id of the first item of the Store and
    the tab becomes [all]. The arrival of a result changes neither the
    selection nor the tab, so what the user selects while the run goes on
    is kept. *)
Theorem start_selects_first `{!Services World} (st : App.State) (w : World) :
  App.files st ≠ [] → App.fields st ≠ [] →
  (∃ first rest,
     App.results (App.start st w).1.2 = first :: rest ∧
     App.selectedIds (App.start st w).1.2 = {[ id first ]} ∧
     App.activeTab (App.start st w).1.2 = App.all) ∧
  (∀ o r st',
     App.selectedIds (App.resume o r st').2 = App.selectedIds st' ∧
     App.activeTab (App.resume o r st').2 = App.activeTab st').
Proof.
  intros Hfiles Hfields. split.
  - unfold App.start.
    rewrite !bool_decide_eq_false_2, orb_false_l
      by (rewrite length_zero_iff_nil; done).
    unfold App.prepare. simpl.
    pose proof (initialResults_spec (App.files st) w) as Hinit.
    destruct (App.initialResults (App.files st) w) as [initial w1]. simpl in Hinit.
    destruct Hinit as [|file item0 fs initial [ident ->] Hrest]; [done|].
    unfold App.iteration. simpl. by eexists _, _.
  - intros o r st'. unfold App.resume, App.iteration.
    by destruct (App.run_files r !! S (App.at_index r)).
Qed.

Lemma start_selects_first_witness :
  (∃ first rest,
     App.results (App.start Sample.two_files Sample.fail_then_answer).1.2
     = first :: rest ∧
     App.selectedIds (App.start Sample.two_files Sample.fail_then_answer).1.2
     = {[ id first ]} ∧
     App.activeTab (App.start Sample.two_files Sample.fail_then_answer).1.2
     = App.all) ∧
  (∀ o r st',
     App.selectedIds (App.resume o r st').2 = App.selectedIds st' ∧
     App.activeTab (App.resume o r st').2 = App.activeTab st').
Proof.
  apply (start_selects_first Sample.two_files Sample.fail_then_answer).
  - vm_compute. congruence.
  - vm_compute. congruence.
Defined.

(** ** The run, one [await] at a time *)

Lemma in_flight_split (i : nat) (l : list ExtractedData) :
  in_flight i l ↔
  ∃ done cur todo,
    l = done ++ cur :: todo ∧ length done = i ∧
    Forall (λ item, Status.terminal (status item) = true) done ∧
    status cur = Status.processing ∧
    Forall (λ item, status item = Status.pending) todo.
Proof.
  unfold in_flight. split.
  - intros (Hdone & Hcur & Htodo).
    destruct (l !! i) as [cur|] eqn:Hi; [|done].
    exists (take i l), cur, (drop (S i) l).
    split; [by rewrite take_drop_middle|].
    split; [apply length_take_le, Nat.lt_le_incl; by eapply lookup_lt_Some|].
    split; [done|]. split; [by simplify_eq/=|done].
  - intros (done & cur & todo & -> & <- & Hdone & Hcur & Htodo).
    rewrite take_app_length, list_lookup_middle by done.
    rewrite (cons_middle cur done todo), app_assoc.
    rewrite drop_app_length' by (rewrite length_app; simpl; lia).
    split; [done|]. split; [by rewrite <- Hcur|done].
Qed.

Lemma settle_terminal (o : Outcome) (item : ExtractedData) :
  Status.terminal (status (App.settle o item)) = true.
Proof. by destruct o. Qed.

(** X5. The click on the start button, with documents and fields given,
    leaves a run waiting on the first document: the Store shows one item
    per document, the first being processed and the others waiting, and the
    status is [extracting]. *)
Theorem start_in_flight `{!Services World} (st : App.State) (w : World) :
  App.files st ≠ [] → App.fields st ≠ [] →
  ∃ r st' w',
    App.start st w = (Some r, st', w') ∧
    App.at_index r = 0 ∧ App.run_files r = App.files st ∧
    App.run_fields r = App.fields st ∧
    App.results st' = App.updatedResults r ∧
    fileName <$> App.updatedResults r = name <$> App.files st ∧
    in_flight 0 (App.updatedResults r) ∧
    App.status st' = extracting.
Proof.
  intros Hfiles Hfields. unfold App.start.
  rewrite !bool_decide_eq_false_2, orb_false_l
    by (rewrite length_zero_iff_nil; done).
  unfold App.prepare. simpl.
  pose proof (initialResults_spec (App.files st) w) as Hinit.
  destruct (App.initialResults (App.files st) w) as [initial w1]. simpl in Hinit.
  unfold App.iteration.
  destruct (App.files st) as [|file fs] eqn:Hfs; [done|]. simpl.
  apply Forall2_cons_inv_l in Hinit as (item0 & initial' & [ident ->] & Hrest & ->).
  eexists _, _, _. split; [done|]. simpl.
  repeat split; try done.
  - f_equal. clear -Hrest. induction Hrest as [|???? [? ->] _ IH]; [done|].
    csimpl. by f_equal.
  - simpl. rewrite drop_0. clear -Hrest.
    induction Hrest as [|???? [? ->] _ IH]; by constructor.
Qed.

Lemma start_in_flight_witness :
  ∃ r st' w',
    App.start Sample.two_files Sample.fail_then_answer = (Some r, st', w') ∧
    App.at_index r = 0 ∧ in_flight 0 (App.updatedResults r).
Proof.
  destruct (start_in_flight Sample.two_files Sample.fail_then_answer)
    as (r & st' & w' & Hstart & Hi & _ & _ & _ & _ & Hshape & _).
  - vm_compute. congruence.
  - vm_compute. congruence.
  - by exists r, st', w'.
Defined.

(** X6. The arrival of a result, for a run waiting on item [i] in a
    Store of the shape above: either the run now waits on item [i + 1],
    with the items up to [i] settled, item [i + 1] being processed and the
    others still waiting, or [i] was the last document, every item is
    settled and the status is [completed]. One call is in flight at a
    time. *)
Theorem resume_in_flight (o : Outcome) (r : App.Suspended) (st : App.State) :
  in_flight (App.at_index r) (App.updatedResults r) →
  length (App.updatedResults r) = length (App.run_files r) →
  match App.resume o r st with
  | (Some r', st') =>
      App.at_index r' = S (App.at_index r) ∧
      App.run_files r' = App.run_files r ∧ App.run_fields r' = App.run_fields r ∧
      length (App.updatedResults r') = length (App.run_files r') ∧
      App.results st' = App.updatedResults r' ∧
      in_flight (S (App.at_index r)) (App.updatedResults r')
  | (None, st') =>
      S (App.at_index r) = length (App.run_files r) ∧
      Forall (λ item, Status.terminal (status item) = true) (App.results st') ∧
      App.status st' = completed
  end.
Proof.
  intros Hshape Hlen.
  apply in_flight_split in Hshape
    as (done & cur & todo & Hupd & Hi & Hdone & Hcur & Htodo).
  unfold App.resume, App.iteration. rewrite Hupd, <- Hi, alter_middle.
  destruct (App.run_files r !! S (length done)) as [file|] eqn:Hnext.
  - apply lookup_lt_Some in Hnext. rewrite <- Hlen, Hupd, length_app in Hnext.
    simpl in Hnext. destruct todo as [|nxt todo]; [simpl in Hnext; lia|].
    assert (Hmid : alter (with_status Status.processing) (S (length done))
                     (done ++ App.settle o cur :: nxt :: todo)
                   = (done ++ [App.settle o cur])
                       ++ with_status Status.processing nxt :: todo).
    { rewrite (cons_middle (App.settle o cur) done), app_assoc.
      replace (S (length done)) with (length (done ++ [App.settle o cur]))
        by (rewrite length_app; simpl; lia).
      apply alter_middle. }
    simpl. rewrite Hmid. do 3 (split; [done|]). split; [|split; [done|]].
    + rewrite <- Hlen, Hupd, !length_app. simpl. lia.
    + apply in_flight_split.
      exists (done ++ [App.settle o cur]), (with_status Status.processing nxt), todo.
      split; [done|]. split; [rewrite length_app; simpl; lia|].
      split; [|split; [done|by apply Forall_cons in Htodo as [_ ?]]].
      apply Forall_app. split; [done|].
      apply Forall_singleton, settle_terminal.
  - apply lookup_ge_None in Hnext. rewrite <- Hlen, Hupd, length_app in Hnext.
    simpl in Hnext. destruct todo as [|nxt todo]; [|simpl in Hnext; lia].
    simpl. split; [rewrite <- Hlen, Hupd, length_app; simpl; lia|].
    split; [|done].
    apply Forall_app. split; [done|]. apply Forall_singleton, settle_terminal.
Qed.

Lemma resume_in_flight_witness :
  match Sample.run_A.1.1 with
  | Some A =>
      match App.resume (Returned (Sample.invoice "7")) A Sample.run_A.1.2 with
      | (Some _, _) => False
      | (None, st') =>
          Forall (λ item, Status.terminal (status item) = true) (App.results st') ∧
          App.status st' = completed
      end
  | None => False
  end.
Proof.
  destruct Sample.run_A.1.1 as [A|] eqn:HA; [|vm_compute in HA; congruence].
  pose proof (resume_in_flight (Returned (Sample.invoice "7")) A Sample.run_A.1.2) as H.
  assert (HA' : A = {| App.run_files := [Sample.a_pdf];
                       App.run_fields := ["Invoice Number"; "Total Amount"; "Date"];
                       App.updatedResults :=
                         [with_status Status.processing (pending_item "id0" "a.pdf")];
                       App.at_index := 0 |}).
  { vm_compute in HA. injection HA as <-. reflexivity. }
  subst A.
  destruct (App.resume _ _ _) as [[r'|] st'] eqn:Hres.
  - vm_compute in Hres. congruence.
  - apply H.
    + unfold in_flight. simpl. repeat split; constructor.
    + reflexivity.
Defined.

(** ** Selection, file list and reset *)

Local Set Warnings "-clear-no-such-hyp".

Lemma handleSelectAll_selected (ids : list string) (sel : gset string) :
  foldl (λ newSet i, newSet ∪ {[ i ]}) sel ids = sel ∪ list_to_set ids.
Proof.
  revert sel. induction ids as [|i ids IH]; intros sel; simpl.
  - set_solver.
  - rewrite IH. set_solver.
Qed.

Lemma handleSelectAll_deselected (ids : list string) (sel : gset string) :
  foldl (λ newSet i, newSet ∖ {[ i ]}) sel ids = sel ∖ list_to_set ids.
Proof.
  revert sel. induction ids as [|i ids IH]; intros sel; simpl.
  - set_solver.
  - rewrite IH. set_solver.
Qed.

(** X7. [handleSelect] toggles the membership of the given id, leaves
    every other id as it was, and undoes itself when applied twice; the
    files, the fields, the Store, the status and the tab are untouched. *)
Theorem handleSelect_toggles (i : string) (st : App.State) :
  let st' := App.handleSelect i st in
  (i ∈ App.selectedIds st' ↔ i ∉ App.selectedIds st) ∧
  (∀ j, j ≠ i → j ∈ App.selectedIds st' ↔ j ∈ App.selectedIds st) ∧
  App.selectedIds (App.handleSelect i st') = App.selectedIds st ∧
  App.setSelectedIds (App.selectedIds st) st' = App.setSelectedIds (App.selectedIds st) st.
Proof.
  unfold App.handleSelect. simpl.
  destruct (decide (i ∈ App.selectedIds st)) as [Hin|Hnot]; simpl.
  - rewrite decide_False by set_solver.
    repeat split; try set_solver.
    apply set_eq. intros j. destruct (decide (j = i)); set_solver.
  - rewrite decide_True by set_solver.
    repeat split; try set_solver.
Qed.

(** X8. [handleSelectAll(ids, true)] selects the given ids and keeps the
    ids selected before; [handleSelectAll(ids, false)] removes the given ids
    and keeps the others. *)
Theorem handleSelectAll_membership (ids : list string) (shouldSelect : bool)
    (st : App.State) (j : string) :
  j ∈ App.selectedIds (App.handleSelectAll ids shouldSelect st) ↔
  if shouldSelect then j ∈ App.selectedIds st ∨ j ∈ ids
  else j ∈ App.selectedIds st ∧ j ∉ ids.
Proof.
  unfold App.handleSelectAll. simpl. destruct shouldSelect.
  - rewrite handleSelectAll_selected. set_solver.
  - rewrite handleSelectAll_deselected. set_solver.
Qed.

(** X9. The box in the header of the table. After it is checked over a
    non-empty list of visible ids, all of them count as selected and the box
    is not indeterminate; after it is unchecked, the box shows neither
    state. *)
Theorem header_checkbox (ids : list string) (st : App.State) :
  (ids ≠ [] →
   ResultsTable.allSelected ids
     (App.selectedIds (App.handleSelectAll ids true st)) = true) ∧
  ResultsTable.isIndeterminate ids
    (App.selectedIds (App.handleSelectAll ids true st)) = false ∧
  ResultsTable.allSelected ids
    (App.selectedIds (App.handleSelectAll ids false st)) = false ∧
  ResultsTable.isIndeterminate ids
    (App.selectedIds (App.handleSelectAll ids false st)) = false.
Proof.
  assert (Hall : forallb (λ i, bool_decide
                   (i ∈ App.selectedIds (App.handleSelectAll ids true st))) ids = true).
  { apply forallb_forall. intros i Hi. apply bool_decide_eq_true.
    unfold App.handleSelectAll. simpl. rewrite handleSelectAll_selected.
    apply elem_of_union_r, elem_of_list_to_set. by apply list_elem_of_In. }
  assert (Hnone : existsb (λ i, bool_decide
                    (i ∈ App.selectedIds (App.handleSelectAll ids false st))) ids = false).
  { apply not_true_is_false. intros (i & Hi & Hsel)%existsb_exists.
    apply bool_decide_eq_true in Hsel.
    unfold App.handleSelectAll in Hsel. simpl in Hsel.
    rewrite handleSelectAll_deselected in Hsel.
    apply elem_of_difference in Hsel as [_ Hnot].
    apply Hnot, elem_of_list_to_set. by apply list_elem_of_In. }
  unfold ResultsTable.isIndeterminate, ResultsTable.allSelected.
  rewrite Hall, Hnone. split; [|split; [|split]].
  - intros Hne. rewrite bool_decide_eq_true_2; [done|].
    destruct ids; [done|simpl; lia].
  - destruct ids as [|i ids]; [done|].
    rewrite (bool_decide_eq_true_2 (0 < _)) by (simpl; lia).
    simpl. by rewrite andb_false_r.
  - destruct ids as [|i ids]; [done|].
    rewrite (bool_decide_eq_true_2 (0 < _)) by (simpl; lia). simpl.
    simpl in Hnone. apply orb_false_elim in Hnone as [-> _]. done.
  - done.
Qed.

Lemma imap_filter_above {A} (l : list A) (k t : nat) :
  t < k →
  (filter (λ p : nat * A, p.1 ≠ t) (imap (λ j x, (k + j, x)) l)).*2 = l.
Proof.
  revert k. induction l as [|x l IH]; intros k Ht; csimpl; [done|].
  rewrite filter_cons, decide_True by (simpl; lia). csimpl. f_equal.
  rewrite <- (IH (S k)) at 2 by lia.
  f_equal. f_equal. apply imap_ext. intros j y _. simpl. f_equal. lia.
Qed.

Lemma imap_filter_delete {A} (l : list A) (k i : nat) :
  (filter (λ p : nat * A, p.1 ≠ k + i) (imap (λ j x, (k + j, x)) l)).*2
  = delete i l.
Proof.
  revert k i. induction l as [|x l IH]; intros k i; csimpl; [done|].
  rewrite filter_cons. destruct i as [|i].
  - rewrite decide_False by (simpl; lia). simpl.
    rewrite <- (imap_filter_above l (S k) (k + 0)) at 2 by lia.
    f_equal. f_equal. apply imap_ext. intros j y _. simpl. f_equal. lia.
  - rewrite decide_True by (simpl; lia). csimpl. f_equal.
    rewrite <- (IH (S k) i).
    replace (S k + i) with (k + S i) by lia.
    f_equal. f_equal. apply imap_ext. intros j y _. simpl. f_equal. lia.
Qed.

(** X10. [handleRemoveFile] removes the file at the given position and
    keeps the others in order; a position beyond the list changes
    nothing. *)
Theorem handleRemoveFile_removes (index : nat) (st : App.State) :
  App.files (App.handleRemoveFile index st)
  = take index (App.files st) ++ drop (S index) (App.files st) ∧
  (index < length (App.files st) →
   S (length (App.files (App.handleRemoveFile index st))) = length (App.files st)) ∧
  (length (App.files st) ≤ index →
   App.handleRemoveFile index st = st).
Proof.
  assert (Hdel : App.files (App.handleRemoveFile index st) = delete index (App.files st)).
  { unfold App.handleRemoveFile. simpl.
    rewrite <- (imap_filter_delete (App.files st) 0 index). done. }
  split; [by rewrite Hdel, delete_take_drop|]. split.
  - intros Hlt. rewrite Hdel, length_delete by by apply lookup_lt_is_Some_2. lia.
  - intros Hge. destruct st as [fs flds rs s sel tab].
    unfold App.handleRemoveFile, App.setFiles in *. simpl in *. f_equal.
    rewrite Hdel, delete_take_drop, take_ge, drop_ge by lia.
    by rewrite app_nil_r.
Qed.

(** X11. After a confirmed reset nothing is left to work on: the start
    button's handler does nothing, both exports refuse with the alert, no
    item is displayed and the summary is empty; the FieldSet is kept. A
    declined reset changes nothing. *)
Theorem handleReset_clears `{!Services World} `{!Js.Engine} (st : App.State)
    (w : World)
    (sel : gset string) :
  let st' := App.handleReset true st in
  App.handleReset false st = st ∧
  App.fields st' = App.fields st ∧
  silent_noop st' w (App.startExtraction st' w) ∧
  ExcelService.handleExport st' = ExcelService.alert "No data available to export." ∧
  ExcelService.handleExportAll st' = ExcelService.alert "No data available to export." ∧
  App.getDisplayedResults st' = [] ∧
  ExcelSummary.summaryRows (App.results st') sel (App.fields st') = Js.Normal [].
Proof. by repeat split. Qed.

Lemma exportable_selected (sel : gset string) (rs : list ExtractedData) :
  List.filter (ExcelService.exportable (Some sel)) rs
  = List.filter (ExcelService.exportable None) (filter (λ r, id r ∈ sel) rs).
Proof.
  induction rs as [|r rs IH]; simpl; [done|].
  rewrite filter_cons. unfold ExcelService.exportable at 1.
  destruct (decide (id r ∈ sel)) as [Hin|Hnot].
  - rewrite (bool_decide_eq_true_2 _ Hin), andb_true_r. simpl.
    assert (ExcelService.exportable None r
            = bool_decide (status r = Status.success) && bool_decide (is_Some (data r)))
      as -> by (unfold ExcelService.exportable; by rewrite andb_true_r).
    destruct (_ && _); by rewrite IH.
  - rewrite (bool_decide_eq_false_2 _ Hnot), andb_false_r. exact IH.
Qed.

(** X12. [Export Selected] exports what the [Selected] tab displays: the
    rows written are those of the successful items of that tab, in the
    order shown, and the export refuses exactly when that tab shows no
    successful item. *)
Theorem handleExport_exports_selected_tab (st : App.State) :
  ExcelService.handleExport st
  = ExcelService.exportToExcel
      (App.getDisplayedResults (App.setActiveTab App.selected st)) None
      ExcelService.default_filename.
Proof.
  unfold ExcelService.handleExport, ExcelService.exportToExcel,
    ExcelService.exportableData, App.getDisplayedResults. simpl.
  by rewrite exportable_selected.
Qed.

(** ** Export: rows and columns *)

Lemma own_foldl_set {V} (base l : JsObject.t V) (k : string) :
  NoDup l.*1 →
  JsObject.own k (foldl (λ o kv, JsObject.set kv.1 kv.2 o) base l)
  = match JsObject.own k l with
    | Some v => Some v
    | None => JsObject.own k base
    end.
Proof.
  revert base. induction l as [|[k0 v0] l IH]; intros base Hnd; csimpl; [done|].
  apply NoDup_cons in Hnd as [Hk0 Hnd]. simpl in Hk0.
  rewrite IH, own_set by done.
  destruct (decide (k0 = k)) as [->|]; [|done].
  apply own_None in Hk0. by rewrite Hk0.
Qed.

(** X13. The exported row of an item with data reads, at every key of the
    data, the value of the data, also at the key [FileName]: a field of
    that name replaces the file name; at [FileName] otherwise it reads the
    file name, and it has no other key. *)
Theorem export_row_reads (item : ExtractedData) (d : Data) (k : string) :
  data item = Some d → NoDup d.*1 →
  JsObject.own k (ExcelService.export_row item)
  = match JsObject.own k d with
    | Some v => Some v
    | None => if decide (k = "FileName") then Some (Js.VStr (fileName item)) else None
    end.
Proof.
  intros Hd Hnd. unfold ExcelService.export_row. rewrite Hd. simpl.
  rewrite own_foldl_set by by rewrite entries_Permutation.
  rewrite own_entries. destruct (JsObject.own k d); [done|]. simpl.
  destruct (decide ("FileName" = k)) as [<-|Hne]; [done|].
  by rewrite decide_False.
Qed.

Lemma export_row_reads_witness :
  JsObject.own "FileName"
    (ExcelService.export_row
       {| id := "id0"; fileName := "a.pdf"; status := Status.success;
          data := Some [("FileName", Js.VStr "scan-17"); ("Date", Js.VNull)];
          error := None |})
  = Some (Js.VStr "scan-17").
Proof.
  rewrite (export_row_reads _ [("FileName", Js.VStr "scan-17"); ("Date", Js.VNull)]).
  - reflexivity.
  - reflexivity.
  - apply (bool_decide_unpack _). vm_compute. exact I.
Defined.

Lemma foldl_add_keys (hdr : list string) (rows : list Data) :
  foldl ExcelService.add_keys hdr rows
  = foldl (λ h k, if decide (k ∈ h) then h else h ++ [k]) hdr
      (mjoin (JsObject.keys <$> rows)).
Proof.
  revert hdr. induction rows as [|row rows IH]; intros hdr; csimpl; [done|].
  by rewrite foldl_app, IH.
Qed.

Lemma export_row_has_FileName (item : ExtractedData) :
  "FileName" ∈ JsObject.keys (ExcelService.export_row item).
Proof.
  unfold JsObject.keys. rewrite entries_Permutation.
  unfold ExcelService.export_row.
  generalize (JsObject.entries (default [] (data item))).
  assert (H : "FileName" ∈ [("FileName", Js.VStr (fileName item))].*1) by left.
  revert H. generalize [("FileName", Js.VStr (fileName item))].
  intros base Hbase l. revert base Hbase.
  induction l as [|[k v] l IH]; intros base Hbase; simpl; [done|].
  apply IH. destruct (decide (k ∈ base.*1)) as [Hin|Hnot].
  - by rewrite set_keys_elem_of.
  - rewrite set_not_elem_of, fmap_app by done. apply elem_of_app. by left.
Qed.

(** X14. When the export writes a file, it writes it under the given
    name with the sheet [Extracted Data] and one row per qualifying item,
    in Store order; the columns are pairwise distinct, every key of every
    row is a column and every column is a key of some row, in the order of
    first appearance over the rows; [FileName] is always a column. *)
Theorem exportToExcel_writes (items : list ExtractedData)
    (selectedIds : option (gset string)) (filename fn sheet : string)
    (header : list string) (rows : list Data) :
  ExcelService.exportToExcel items selectedIds filename
  = ExcelService.writeFile fn sheet header rows →
  fn = filename ∧ sheet = "Extracted Data" ∧
  rows = ExcelService.export_row <$> List.filter (ExcelService.exportable selectedIds) items ∧
  rows ≠ [] ∧
  header = first_seen (mjoin (JsObject.keys <$> rows)) ∧
  NoDup header ∧
  (∀ k, k ∈ header ↔ ∃ row, row ∈ rows ∧ k ∈ JsObject.keys row) ∧
  "FileName" ∈ header.
Proof.
  unfold ExcelService.exportToExcel.
  destruct (bool_decide _) eqn:Hempty; [done|].
  intros [= <- <- <- <-]. apply bool_decide_eq_false in Hempty.
  set (rows := ExcelService.exportableData items selectedIds) in *.
  assert (Hhdr : ExcelService.json_to_sheet_header rows
                 = first_seen (mjoin (JsObject.keys <$> rows)))
    by apply foldl_add_keys.
  assert (Hmem : ∀ k, k ∈ ExcelService.json_to_sheet_header rows ↔
                      ∃ row, row ∈ rows ∧ k ∈ JsObject.keys row).
  { intros k. rewrite Hhdr, elem_of_first_seen, list_elem_of_join. split.
    - intros (ks & Hk & (row & -> & Hrow)%list_elem_of_fmap). by exists row.
    - intros (row & Hrow & Hk). exists (JsObject.keys row). split; [done|].
      by apply list_elem_of_fmap_2. }
  do 2 (split; [done|]). split; [done|].
  split; [intros Hnil; apply Hempty; by rewrite Hnil|]. split; [done|].
  split; [rewrite Hhdr; apply NoDup_first_seen|]. split; [done|].
  apply Hmem. unfold rows, ExcelService.exportableData in *.
  destruct (List.filter _ items) as [|item rest]; [done|].
  exists (ExcelService.export_row item). split; [left|apply export_row_has_FileName].
Qed.

Lemma exportToExcel_writes_witness :
  ["FileName"; "Invoice Number"; "Total Amount"; "Date"]
  = first_seen (mjoin (JsObject.keys <$> ExcelService.exportableData Sample.extracted None)).
Proof.
  apply (exportToExcel_writes Sample.extracted None "all_extracted_data.xlsx"
           "all_extracted_data.xlsx" "Extracted Data"
           ["FileName"; "Invoice Number"; "Total Amount"; "Date"]
           (ExcelService.exportableData Sample.extracted None)).
  reflexivity.
Defined.

(** ** The summary: failure, rows, counts *)

Section summary_properties.
Context `{!Js.Engine}.

Lemma forEach_app {A S} (body : S → A → Js.Completion S) (l1 l2 : list A) (s : S) :
  Js.forEach body (l1 ++ l2) s = Js.bind (Js.forEach body l1 s) (Js.forEach body l2).
Proof.
  revert s. induction l1 as [|x l1 IH]; intros s; simpl; [done|].
  destruct (body s x) as [s'|e]; simpl; [apply IH|done].
Qed.

Lemma Exists_first {A} (P : A → bool) (l : list A) :
  Exists (λ x, P x = true) l →
  ∃ l1 x l2, l = l1 ++ x :: l2 ∧ Forall (λ y, P y = false) l1 ∧ P x = true.
Proof.
  induction l as [|y l IH]; intros Hex; [by apply Exists_nil in Hex|].
  destruct (P y) eqn:Hy.
  - exists [], y, l. by repeat split.
  - apply Exists_cons in Hex as [Hy'|Hex]; [congruence|].
    destruct (IH Hex) as (l1 & x & l2 & -> & Hl1 & Hx).
    exists (y :: l1), x, l2. repeat split; [|done]. by constructor.
Qed.

(** X15. The summary fails exactly on the customers named like a member
    of [Object.prototype]: if the key of some filtered item is such a name
    the computation throws a [TypeError], and otherwise it returns rows. *)
Theorem summaryRows_throws_iff (items : list ExtractedData)
    (selectedIds : gset string) (fields : list string) :
  let r := ExcelSummary.resolve fields in
  let selected := ExcelSummary.selectedItems items selectedIds in
  let named_like_member item :=
    JsObject.inherited (ExcelSummary.normalizedKey r item) = true in
  (Exists named_like_member selected →
   ExcelSummary.summaryRows items selectedIds fields = Js.Throw "TypeError") ∧
  (¬ Exists named_like_member selected →
   ∃ rows, ExcelSummary.summaryRows items selectedIds fields = Js.Normal rows).
Proof.
  intros r selected bad. split.
  - intros Hex. unfold ExcelSummary.summaryRows. fold selected r.
    rewrite bool_decide_eq_false_2
      by (intros Hnil%length_zero_iff_nil; rewrite Hnil in Hex;
          by apply Exists_nil in Hex).
    apply (Exists_first (λ item, JsObject.inherited (ExcelSummary.normalizedKey r item)))
      in Hex as (l1 & x & l2 & -> & Hl1 & Hx).
    destruct (forEach_group_item r l1 Hl1) as (groups & Hrun & Hkeys & _).
    rewrite forEach_app, Hrun. simpl.
    rewrite group_item_inherited; [done| |done].
    apply own_None. rewrite Hkeys, elem_of_first_seen.
    intros (y & Hy & Hin)%list_elem_of_fmap.
    rewrite Forall_forall in Hl1. specialize (Hl1 y Hin). simpl in Hl1.
    congruence.
  - intros Hnot.
    destruct (summaryRows_run items selectedIds fields) as (groups & Hrun & _).
    + apply Forall_forall. intros item Hin. apply not_true_is_false.
      intros Hbad. apply Hnot, Exists_exists. by exists item.
    + eauto.
Qed.

Lemma own_elem_of_NoDup {V} (o : JsObject.t V) (k : string) (v : V) :
  NoDup o.*1 → (k, v) ∈ o → JsObject.own k o = Some v.
Proof.
  induction o as [|[k0 v0] o IH]; csimpl; [by intros _ ?%elem_of_nil|].
  intros [Hk0 Hnd]%NoDup_cons [[= -> ->]|Hin]%elem_of_cons.
  - by rewrite decide_True.
  - rewrite decide_False; [by apply IH|].
    intros ->. apply Hk0. apply list_elem_of_fmap. by exists (k, v).
Qed.

Lemma addToSet_contribution (item : ExtractedData) (set : Js.StringSet)
    (field : option string) :
  ExcelSummary.addToSet item set field
  = match contribution field item with
    | Some x => if decide (x ∈ set) then set else set ++ [x]
    | None => set
    end.
Proof.
  unfold ExcelSummary.addToSet, contribution.
  destruct field as [f|]; simpl; [|done].
  by destruct (_ && _).
Qed.

Lemma foldl_contributions (field : option string) (set : Js.StringSet)
    (l : list ExtractedData) :
  foldl (λ s item, ExcelSummary.addToSet item s field) set l
  = foldl (λ seen k, if decide (k ∈ seen) then seen else seen ++ [k]) set
      (omap (contribution field) l).
Proof.
  revert set. induction l as [|item l IH]; intros set; simpl; [done|].
  rewrite IH, addToSet_contribution.
  by destruct (contribution field item).
Qed.

Lemma foldl_add_item_sets (r : ExcelSummary.Roles) (g : ExcelSummary.Group.t)
    (l : list ExtractedData) :
  let g' := foldl (λ g item, ExcelSummary.add_item r item g) g l in
  ExcelSummary.Group.jobNos g'
  = foldl (λ s item, ExcelSummary.addToSet item s (ExcelSummary.job r))
      (ExcelSummary.Group.jobNos g) l ∧
  ExcelSummary.Group.advanceTotals g'
  = foldl (λ s item, ExcelSummary.addToSet item s (ExcelSummary.advance r))
      (ExcelSummary.Group.advanceTotals g) l ∧
  ExcelSummary.Group.paymentTerms g'
  = foldl (λ s item, ExcelSummary.addToSet item s (ExcelSummary.terms r))
      (ExcelSummary.Group.paymentTerms g) l ∧
  ExcelSummary.Group.invoiceDates g'
  = foldl (λ s item, ExcelSummary.addToSet item s (ExcelSummary.date r))
      (ExcelSummary.Group.invoiceDates g) l ∧
  ExcelSummary.Group.grandTotals g'
  = foldl (λ s item, ExcelSummary.addToSet item s (ExcelSummary.grand_total r))
      (ExcelSummary.Group.grandTotals g) l.
Proof.
  revert g. induction l as [|item l IH]; intros g; simpl; [done|].
  apply (IH (ExcelSummary.add_item r item g)).
Qed.

(** Every row is the row of a key seen, built from the members of that
    key. *)
Lemma summaryRows_rows (items : list ExtractedData) (selectedIds : gset string)
    (fields : list string) :
  let r := ExcelSummary.resolve fields in
  let selected := ExcelSummary.selectedItems items selectedIds in
  Forall (λ item, JsObject.inherited (ExcelSummary.normalizedKey r item) = false)
    selected →
  ∃ groups,
    ExcelSummary.summaryRows items selectedIds fields
    = Js.Normal (ExcelSummary.row_of <$> JsObject.entries groups) ∧
    groups.*1 = first_seen (ExcelSummary.normalizedKey r <$> selected) ∧
    ∀ k g, (k, g) ∈ JsObject.entries groups →
      ∃ first rest,
        members r k selected = first :: rest ∧
        g = foldl (λ g item, ExcelSummary.add_item r item g)
              (ExcelSummary.Group.fresh (ExcelSummary.customerText r first))
              (first :: rest).
Proof.
  intros r selected Hok.
  destruct (summaryRows_run items selectedIds fields Hok) as (groups & Hrun & Hkeys & Hown).
  fold r selected in Hkeys, Hown.
  exists groups. split; [done|]. split; [done|].
  intros k g Hin. rewrite entries_Permutation in Hin.
  apply own_elem_of_NoDup in Hin; [|rewrite Hkeys; apply NoDup_first_seen].
  rewrite Hown in Hin. unfold group_of in Hin.
  destruct (members r k selected) as [|first rest]; [done|].
  injection Hin as <-. by exists first, rest.
Qed.

(** X16. Each row of the summary is determined by the filtered items of
    its key, taken in scan order: its id list and its file count are theirs,
    its customer name is the text of the first of them, and each of its five
    role columns shows the distinct truthy values of the role's field among
    them, in order of first appearance, joined by a comma and a blank, or a
    dash when there is none. *)
Theorem summaryRows_row_contents (items : list ExtractedData)
    (selectedIds : gset string) (fields : list string) :
  let r := ExcelSummary.resolve fields in
  let selected := ExcelSummary.selectedItems items selectedIds in
  let column role ms := ExcelSummary.display (first_seen (omap (contribution role) ms)) in
  Forall (λ item, JsObject.inherited (ExcelSummary.normalizedKey r item) = false)
    selected →
  ∃ rows,
    ExcelSummary.summaryRows items selectedIds fields = Js.Normal rows ∧
    ∀ row, row ∈ rows →
      ∃ first rest,
        members r (ExcelSummary.key row) selected = first :: rest ∧
        ExcelSummary.customerName row = ExcelSummary.customerText r first ∧
        ExcelSummary.ids row = id <$> first :: rest ∧
        ExcelSummary.fileCount row = length (first :: rest) ∧
        ExcelSummary.jobNos row = column (ExcelSummary.job r) (first :: rest) ∧
        ExcelSummary.advanceTotal row = column (ExcelSummary.advance r) (first :: rest) ∧
        ExcelSummary.paymentTerms row = column (ExcelSummary.terms r) (first :: rest) ∧
        ExcelSummary.invoiceDate row = column (ExcelSummary.date r) (first :: rest) ∧
        ExcelSummary.grandTotal row = column (ExcelSummary.grand_total r) (first :: rest).
Proof.
  intros r selected column Hok.
  destruct (summaryRows_rows items selectedIds fields Hok) as (groups & Hrun & _ & Hgroups).
  fold r selected in Hgroups.
  eexists. split; [exact Hrun|].
  intros row ([k g] & -> & Hin)%list_elem_of_fmap.
  destruct (Hgroups k g Hin) as (first & rest & Hmembers & Hg).
  exists first, rest. split; [done|].
  destruct (foldl_add_item_shape r
              (ExcelSummary.Group.fresh (ExcelSummary.customerText r first))
              (first :: rest)) as (Hname & Hids & Hfiles).
  destruct (foldl_add_item_sets r
              (ExcelSummary.Group.fresh (ExcelSummary.customerText r first))
              (first :: rest)) as (Hj & Ha & Ht & Hd & Hgt).
  rewrite <- Hg in Hname, Hids, Hfiles, Hj, Ha, Ht, Hd, Hgt.
  unfold ExcelSummary.row_of, column. cbn [ExcelSummary.customerName ExcelSummary.ids
    ExcelSummary.fileCount ExcelSummary.jobNos ExcelSummary.advanceTotal
    ExcelSummary.paymentTerms ExcelSummary.invoiceDate ExcelSummary.grandTotal fst snd].
  rewrite Hname, Hids, Hfiles, Hj, Ha, Ht, Hd, Hgt.
  rewrite !foldl_contributions.
  split; [done|]. split; [done|].
  split; [by rewrite app_nil_l, length_fmap|].
  by repeat split.
Qed.

(** X17. A role that no field matches shows a dash in every row: here the
    job number; the same holds for the other four roles resolved by
    [findField] alone. *)
Theorem summaryRows_missing_role (items : list ExtractedData)
    (selectedIds : gset string) (fields : list string) :
  let r := ExcelSummary.resolve fields in
  let selected := ExcelSummary.selectedItems items selectedIds in
  Forall (λ item, JsObject.inherited (ExcelSummary.normalizedKey r item) = false)
    selected →
  ∃ rows,
    ExcelSummary.summaryRows items selectedIds fields = Js.Normal rows ∧
    (ExcelSummary.findField fields ExcelSummary.job_patterns = None →
     Forall (λ row, ExcelSummary.jobNos row = "-") rows) ∧
    (ExcelSummary.findField fields ExcelSummary.advance_patterns = None →
     Forall (λ row, ExcelSummary.advanceTotal row = "-") rows) ∧
    (ExcelSummary.findField fields ExcelSummary.terms_patterns = None →
     Forall (λ row, ExcelSummary.paymentTerms row = "-") rows) ∧
    (ExcelSummary.findField fields ExcelSummary.date_patterns = None →
     Forall (λ row, ExcelSummary.invoiceDate row = "-") rows) ∧
    (ExcelSummary.findField fields ExcelSummary.grand_total_patterns = None →
     Forall (λ row, ExcelSummary.grandTotal row = "-") rows).
Proof.
  intros r selected Hok.
  destruct (summaryRows_rows items selectedIds fields Hok) as (groups & Hrun & _ & Hgroups).
  fold r selected in Hgroups.
  assert (Hnone : ∀ set ms,
            foldl (λ s item, ExcelSummary.addToSet item s None) set ms = set).
  { intros set ms. revert set. induction ms as [|m ms IH]; intros set; [done|].
    simpl. by rewrite IH. }
  eexists. split; [exact Hrun|].
  repeat split; intros Hmiss; apply Forall_forall;
    intros row ([k g] & -> & Hin)%list_elem_of_fmap;
    destruct (Hgroups k g Hin) as (first & rest & _ & Hg);
    destruct (foldl_add_item_sets r
                (ExcelSummary.Group.fresh (ExcelSummary.customerText r first))
                (first :: rest)) as (Hj & Ha & Ht & Hd & Hgt);
    rewrite <- Hg in Hj, Ha, Ht, Hd, Hgt;
    unfold r, ExcelSummary.resolve in Hj, Ha, Ht, Hd, Hgt;
    cbn [ExcelSummary.job ExcelSummary.advance ExcelSummary.terms ExcelSummary.date
         ExcelSummary.grand_total] in Hj, Ha, Ht, Hd, Hgt;
    rewrite Hmiss in *; rewrite Hnone in *;
    unfold ExcelSummary.row_of;
    cbn [ExcelSummary.jobNos ExcelSummary.advanceTotal ExcelSummary.paymentTerms
         ExcelSummary.invoiceDate ExcelSummary.grandTotal fst snd];
    rewrite ?Hj, ?Ha, ?Ht, ?Hd, ?Hgt; done.
Qed.

Lemma members_of_others (r : ExcelSummary.Roles) (k k' : string)
    (l : list ExtractedData) :
  k' ≠ k →
  members r k' (filter (λ item, ExcelSummary.normalizedKey r item ≠ k) l)
  = members r k' l.
Proof.
  intros Hne. unfold members. induction l as [|item l IH]; [done|].
  rewrite !filter_cons.
  destruct (decide (ExcelSummary.normalizedKey r item = k')) as [Hk|Hk].
  - rewrite decide_True by congruence.
    by rewrite filter_cons, decide_True, IH.
  - destruct (decide (ExcelSummary.normalizedKey r item ≠ k)); [|done].
    by rewrite filter_cons, decide_False.
Qed.

(** The members of the keys, key after key, are the items. *)
Lemma members_partition (r : ExcelSummary.Roles) (ks : list string) :
  NoDup ks → ∀ l : list ExtractedData,
  Forall (λ item, ExcelSummary.normalizedKey r item ∈ ks) l →
  mjoin ((λ k, members r k l) <$> ks) ≡ₚ l.
Proof.
  induction 1 as [|k ks Hk Hnd IH]; intros l Hl.
  - destruct Hl as [|item l Hitem _]; [done|]. by apply elem_of_nil in Hitem.
  - csimpl.
    set (others := filter (λ item, ExcelSummary.normalizedKey r item ≠ k) l).
    assert ((λ k', members r k' l) <$> ks = (λ k', members r k' others) <$> ks) as ->.
    { apply list_fmap_ext. intros i k' Hk'. symmetry. apply members_of_others.
      intros ->. apply Hk. by eapply list_elem_of_lookup_2. }
    rewrite (IH others).
    + unfold members, others. apply filter_app_complement.
    + apply Forall_forall. intros item [Hne Hin]%list_elem_of_filter.
      rewrite Forall_forall in Hl.
      specialize (Hl item Hin). simpl in Hl.
      apply elem_of_cons in Hl as [?|?]; done.
Qed.

Lemma join_fmap_members {B} (f : ExtractedData → B) (m : string → list ExtractedData)
    (ks : list string) :
  mjoin ((λ k, f <$> m k) <$> ks) = f <$> mjoin (m <$> ks).
Proof.
  induction ks as [|k ks IH]; csimpl; [done|]. by rewrite fmap_app, IH.
Qed.

(** X18. The rows of the summary share out the filtered items: the id
    lists of the rows, put end to end, are a rearrangement of the ids of the
    filtered items, and the file counts add up to their number. *)
Theorem summaryRows_partition (items : list ExtractedData)
    (selectedIds : gset string) (fields : list string) :
  let r := ExcelSummary.resolve fields in
  let selected := ExcelSummary.selectedItems items selectedIds in
  Forall (λ item, JsObject.inherited (ExcelSummary.normalizedKey r item) = false)
    selected →
  ∃ rows,
    ExcelSummary.summaryRows items selectedIds fields = Js.Normal rows ∧
    mjoin (ExcelSummary.ids <$> rows) ≡ₚ id <$> selected ∧
    sum_list_with ExcelSummary.fileCount rows = length selected.
Proof.
  intros r selected Hok.
  destruct (summaryRows_rows items selectedIds fields Hok)
    as (groups & Hrun & Hkeys & Hgroups).
  fold r selected in Hkeys, Hgroups.
  eexists. split; [exact Hrun|].
  assert (Hids : ExcelSummary.ids <$> (ExcelSummary.row_of <$> JsObject.entries groups)
                 = (λ k, id <$> members r k selected) <$> (JsObject.entries groups).*1).
  { rewrite <- !list_fmap_compose. apply list_fmap_ext.
    intros i [k g] Hi. apply list_elem_of_lookup_2 in Hi.
    destruct (Hgroups k g Hi) as (first & rest & Hmembers & ->). simpl.
    destruct (foldl_add_item_shape r
                (ExcelSummary.Group.fresh (ExcelSummary.customerText r first))
                (first :: rest)) as (_ & Hfold & _).
    simpl in Hfold. rewrite Hfold, Hmembers. done. }
  assert (Hcount : ∀ row, row ∈ ExcelSummary.row_of <$> JsObject.entries groups →
            ExcelSummary.fileCount row = length (ExcelSummary.ids row)).
  { intros row ([k g] & -> & Hin)%list_elem_of_fmap.
    destruct (Hgroups k g Hin) as (first & rest & _ & ->).
    destruct (foldl_add_item_shape r
                (ExcelSummary.Group.fresh (ExcelSummary.customerText r first))
                (first :: rest)) as (_ & Hi & Hf).
    unfold ExcelSummary.row_of, ExcelSummary.fileCount, ExcelSummary.ids.
    cbn [fst snd].
    rewrite Hi, Hf. by rewrite !length_app, !length_fmap. }
  assert (Hperm : mjoin (ExcelSummary.ids <$> (ExcelSummary.row_of <$> JsObject.entries groups))
                  ≡ₚ id <$> selected).
  { rewrite Hids, join_fmap_members. apply fmap_Permutation.
    apply members_partition.
    - rewrite entries_Permutation, Hkeys. apply NoDup_first_seen.
    - apply Forall_forall. intros item Hin.
      rewrite entries_Permutation, Hkeys, elem_of_first_seen.
      by apply list_elem_of_fmap_2. }
  split; [done|].
  rewrite <- (length_fmap id selected), <- Hperm, length_join.
  generalize dependent (ExcelSummary.row_of <$> JsObject.entries groups).
  intros rows _ _ Hcount _. induction rows as [|row rows IH]; [done|].
  csimpl. rewrite Hcount by left. f_equal. apply IH.
  intros row' Hin. apply Hcount. by right.
Qed.

(** X19. The Customer role always resolves when there is a field: to the
    first field matching one of the customer patterns, else to the first
    field; the resolved name is a member of the FieldSet. It stays
    unresolved for the empty FieldSet only. *)
Theorem customerField_resolves (fields : list string) :
  ExcelSummary.customerField fields
  = match ExcelSummary.findField fields ExcelSummary.customer_patterns with
    | Some f => Some f
    | None => head fields
    end ∧
  (fields ≠ [] → ∃ f, ExcelSummary.customerField fields = Some f ∧ f ∈ fields) ∧
  (ExcelSummary.customerField fields = None ↔ fields = []).
Proof.
  assert (Heq : ExcelSummary.customerField fields
                = match ExcelSummary.findField fields ExcelSummary.customer_patterns with
                  | Some f => Some f
                  | None => head fields
                  end).
  { unfold ExcelSummary.customerField.
    destruct (ExcelSummary.findField _ _) as [f|] eqn:Hfind; simpl.
    - rewrite findField_unfold in Hfind. apply find_some in Hfind as [_ Hf].
      destruct (decide (f = "")) as [->|Hne]; [|by rewrite bool_decide_eq_true_2].
      unfold matches_any, ExcelSummary.customer_patterns in Hf. cbn [existsb] in Hf.
      rewrite Js.toLowerCase_ascii in Hf by reflexivity. by vm_compute in Hf.
    - by destruct fields. }
  split; [done|]. rewrite Heq. split.
  - intros Hne. destruct (ExcelSummary.findField _ _) as [f|] eqn:Hfind.
    + exists f. split; [done|]. rewrite findField_unfold in Hfind.
      apply find_some in Hfind as [Hin _]. by apply list_elem_of_In.
    + destruct fields as [|f fields]; [done|]. exists f. split; [done|left].
  - destruct (ExcelSummary.findField _ _) as [f|] eqn:Hfind.
    + split; [done|]. intros ->. done.
    + destruct fields; split; done.
Qed.
End summary_properties.

(** The same on sample records, with the reference engine. *)

Section summary_properties_samples.
#[local] Existing Instance Js.reference.

Lemma summaryRows_row_contents_witness :
  ∃ rows,
    ExcelSummary.summaryRows Sample.acme Sample.all_three ["Customer"] = Js.Normal rows ∧
    ∀ row, row ∈ rows → ExcelSummary.fileCount row = length (ExcelSummary.ids row).
Proof.
  destruct (summaryRows_row_contents Sample.acme Sample.all_three ["Customer"])
    as (rows & Hrun & Hrows).
  - apply (bool_decide_unpack _). vm_compute. exact I.
  - exists rows. split; [exact Hrun|].
    intros row Hin.
    destruct (Hrows row Hin) as (first & rest & _ & _ & Hids & Hcount & _).
    rewrite Hids, Hcount. simpl. by rewrite length_fmap.
Defined.

Lemma summaryRows_missing_role_witness :
  ∃ rows,
    ExcelSummary.summaryRows Sample.acme Sample.all_three ["Customer"] = Js.Normal rows ∧
    Forall (λ row, ExcelSummary.jobNos row = "-") rows.
Proof.
  destruct (summaryRows_missing_role Sample.acme Sample.all_three ["Customer"])
    as (rows & Hrun & Hjob & _).
  - apply (bool_decide_unpack _). vm_compute. exact I.
  - exists rows. split; [exact Hrun|]. apply Hjob. reflexivity.
Defined.

Lemma summaryRows_partition_witness :
  ∃ rows,
    ExcelSummary.summaryRows Sample.numbered Sample.both (App.fields App.initial)
    = Js.Normal rows ∧
    sum_list_with ExcelSummary.fileCount rows = 2.
Proof.
  destruct (summaryRows_partition Sample.numbered Sample.both (App.fields App.initial))
    as (rows & Hrun & _ & Hsum).
  - apply (bool_decide_unpack _). vm_compute. exact I.
  - exists rows. split; [exact Hrun|]. rewrite Hsum. vm_compute. reflexivity.
Defined.

Lemma summaryRows_throws_iff_witness :
  ExcelSummary.summaryRows
    [ {| id := "A"; fileName := "a.pdf"; status := Status.success;
         data := Some [("Customer", Js.VStr "Acme")]; error := None |};
      {| id := "B"; fileName := "b.pdf"; status := Status.success;
         data := Some [("Customer", Js.VStr (utf8 [194; 160]%N +:+ "Constructor "))]; error := None |} ]
    {[ "A"; "B" ]} ["Customer"]
  = Js.Throw "TypeError".
Proof.
  apply (summaryRows_throws_iff
           [ {| id := "A"; fileName := "a.pdf"; status := Status.success;
                data := Some [("Customer", Js.VStr "Acme")]; error := None |};
             {| id := "B"; fileName := "b.pdf"; status := Status.success;
                data := Some [("Customer", Js.VStr (utf8 [194; 160]%N +:+ "Constructor "))]; error := None |} ]
           {[ "A"; "B" ]} ["Customer"]).
  apply (bool_decide_unpack _). vm_compute. exact I.
Defined.
End summary_properties_samples.

(** ** Notes on the summary rows *)

Lemma editable_name_inj (f g : ExcelSummary.Editable) :
  ExcelSummary.editable_name f = ExcelSummary.editable_name g → f = g.
Proof. by destruct f, g. Qed.

(** X20. After an edit of one of the two manual columns of a row, that
    cell shows the text typed, and every other cell of every row shows what
    it showed before, whether or not the row had been edited yet. *)
Theorem handleEditChange_shown (k k' : string) (field field' : ExcelSummary.Editable)
    (value : string) (prev : ExcelSummary.SummaryData) :
  ExcelSummary.shown (ExcelSummary.handleEditChange k field value prev) k' field'
  = if decide (k' = k ∧ field' = field) then value
    else ExcelSummary.shown prev k' field'.
Proof.
  unfold ExcelSummary.shown, ExcelSummary.handleEditChange, JsObject.Get,
    JsObject.spread.
  rewrite own_set, own_entries.
  destruct (decide (k = k')) as [<-|Hk].
  - rewrite own_set.
    destruct (decide (field' = field)) as [->|Hf].
    + by rewrite !decide_True.
    + rewrite decide_False by (intros ?%editable_name_inj; congruence).
      rewrite decide_False by (by intros [_ ?]).
      unfold ExcelSummary.previous_entry, JsObject.Get, JsObject.spread.
      destruct (JsObject.own k prev) as [entry|]; [by rewrite own_entries|].
      destruct (JsObject.inherited k); [done|]. by destruct field'.
  - by rewrite decide_False by (intros [? _]; congruence).
Qed.

(** ** The FieldSet editor *)

(** X21. Adding and removing fields keep the FieldSet free of duplicates
    and of the empty name; a removed name is gone. *)
Theorem FieldConfig_keeps_fields_distinct (st : FieldConfig.State) :
  NoDup (FieldConfig.fields st) → "" ∉ FieldConfig.fields st →
  (NoDup (FieldConfig.fields (FieldConfig.handleAddField st)) ∧
   "" ∉ FieldConfig.fields (FieldConfig.handleAddField st)) ∧
  (∀ f, NoDup (FieldConfig.fields (FieldConfig.removeField f st)) ∧
        ("" ∉ FieldConfig.fields (FieldConfig.removeField f st)) ∧
        (f ∉ FieldConfig.fields (FieldConfig.removeField f st))).
Proof.
  intros Hnd Hblank. split.
  - unfold FieldConfig.handleAddField.
    destruct (bool_decide (Js.trim _ ≠ "")) eqn:Hname; simpl; [|done].
    destruct (bool_decide (Js.trim _ ∉ _)) eqn:Hfresh; simpl; [|done].
    apply bool_decide_eq_true in Hname, Hfresh. split.
    + apply NoDup_app. split; [done|]. split; [|apply NoDup_singleton].
      by intros x Hx ->%list_elem_of_singleton.
    + rewrite elem_of_app, list_elem_of_singleton. intros [?|?]; congruence.
  - intros f. simpl. split; [by apply NoDup_filter|].
    split; rewrite list_elem_of_filter; [by intros [_ ?]|by intros [? _]].
Qed.

Lemma FieldConfig_keeps_fields_distinct_witness :
  NoDup (FieldConfig.fields
           (FieldConfig.handleAddField
              {| FieldConfig.fields := ["Customer"; "Job No"];
                 FieldConfig.newField := "  Grand Total " |})).
Proof.
  apply (FieldConfig_keeps_fields_distinct
           {| FieldConfig.fields := ["Customer"; "Job No"];
              FieldConfig.newField := "  Grand Total " |}).
  - apply (bool_decide_unpack _). vm_compute. exact I.
  - apply (bool_decide_unpack _). vm_compute. exact I.
Defined.

(** X22. [handleAddField] adds the trimmed text of the input box at the
    end of the FieldSet and empties the box; when the trimmed text is empty
    or already a field it changes nothing, the box included. Removing the
    name just added gives back the FieldSet. *)
Theorem handleAddField_adds (st : FieldConfig.State) :
  let name := Js.trim (FieldConfig.newField st) in
  (name = "" ∨ name ∈ FieldConfig.fields st → FieldConfig.handleAddField st = st) ∧
  (name ≠ "" → name ∉ FieldConfig.fields st →
   FieldConfig.handleAddField st
   = {| FieldConfig.fields := FieldConfig.fields st ++ [name];
        FieldConfig.newField := "" |} ∧
   FieldConfig.fields (FieldConfig.removeField name (FieldConfig.handleAddField st))
   = FieldConfig.fields st).
Proof.
  intros name. unfold FieldConfig.handleAddField. fold name. split.
  - intros [->|Hin]; [done|].
    rewrite (bool_decide_eq_false_2 (name ∉ _)) by (intros H; by apply H).
    by rewrite andb_false_r.
  - intros Hname Hfresh. rewrite !bool_decide_eq_true_2 by done. simpl.
    split; [done|].
    rewrite filter_app, filter_cons, filter_nil, decide_False
      by (intros H; by apply H).
    rewrite app_nil_r. clear Hname.
    induction (FieldConfig.fields st) as [|f fs IH]; [done|].
    apply not_elem_of_cons in Hfresh as [Hne Hfresh].
    by rewrite filter_cons, decide_True, IH.
Qed.

Lemma handleAddField_adds_witness :
  FieldConfig.handleAddField
    {| FieldConfig.fields := ["Customer"; "Job No"];
       FieldConfig.newField := "  Grand Total " |}
  = {| FieldConfig.fields := ["Customer"; "Job No"; "Grand Total"];
       FieldConfig.newField := "" |}.
Proof.
  apply (handleAddField_adds
           {| FieldConfig.fields := ["Customer"; "Job No"];
              FieldConfig.newField := "  Grand Total " |}).
  - vm_compute. congruence.
  - apply (bool_decide_unpack _). vm_compute. exact I.
Defined.

(** A box that holds a no-break space (U+00A0) holds white space only:
    nothing is added. *)
Example handleAddField_no_break_space :
  let st := {| FieldConfig.fields := ["Customer"];
               FieldConfig.newField := utf8 [194; 160]%N |} in
  Js.trim (FieldConfig.newField st) = "" ∧ FieldConfig.handleAddField st = st.
Proof. by vm_compute. Qed.

(** ** Reordering the columns *)

Lemma indexOf_Some (x : string) (l : list string) (i : nat) :
  ResultsTable.indexOf x l = Some i → l !! i = Some x.
Proof.
  revert i. induction l as [|y l IH]; intros i; simpl; [done|].
  destruct (decide (y = x)) as [->|Hne]; [by intros [= <-]|].
  destruct (ResultsTable.indexOf x l) as [j|]; [|done].
  intros [= <-]. simpl. by apply IH.
Qed.

Lemma indexOf_None (x : string) (l : list string) :
  ResultsTable.indexOf x l = None ↔ x ∉ l.
Proof.
  induction l as [|y l IH]; simpl.
  - split; [intros _; apply not_elem_of_nil|done].
  - rewrite not_elem_of_cons. destruct (decide (y = x)) as [->|Hne].
    + split; [done|]. by intros [? _].
    + destruct (ResultsTable.indexOf x l); simpl.
      * split; [done|]. intros [_ Hnot]. by apply IH in Hnot.
      * split; [intros _; split; [congruence|by apply IH]|done].
Qed.

(** X23. Dropping a dragged column on another one hands to the parent a
    rearrangement of the FieldSet, in which the dragged field stands at the
    position the target had; a FieldSet without duplicates stays so.
    Nothing is handed over when no field is dragged, when the field is
    dropped on itself, or when either field is not in the FieldSet. *)
Theorem handleDrop_moves (draggingField : option string) (targetField : string)
    (fields : list string) :
  match ResultsTable.handleDrop draggingField targetField fields with
  | Some newFields =>
      ∃ dragged toIndex,
        draggingField = Some dragged ∧ dragged ≠ targetField ∧
        ResultsTable.indexOf targetField fields = Some toIndex ∧
        newFields ≡ₚ fields ∧
        newFields !! toIndex = Some dragged ∧
        (NoDup fields → NoDup newFields)
  | None =>
      draggingField = None ∨ draggingField = Some "" ∨
      draggingField = Some targetField ∨
      (∃ dragged, draggingField = Some dragged ∧ dragged ∉ fields) ∨
      targetField ∉ fields
  end.
Proof.
  unfold ResultsTable.handleDrop.
  destruct draggingField as [dragged|]; [|by left].
  destruct (decide (dragged = "")) as [->|Hempty]; [by right; left|].
  destruct (decide (dragged = targetField)) as [->|Hsame].
  { rewrite (bool_decide_eq_true_2 (targetField = targetField)) by done.
    rewrite orb_true_r. by right; right; left. }
  rewrite !bool_decide_eq_false_2 by done. simpl.
  destruct (ResultsTable.indexOf dragged fields) as [fromIndex|] eqn:Hfrom.
  2: { right; right; right; left. exists dragged. split; [done|].
       by apply indexOf_None. }
  destruct (ResultsTable.indexOf targetField fields) as [toIndex|] eqn:Hto.
  2: { right; right; right; right. by apply indexOf_None. }
  apply indexOf_Some in Hfrom. pose proof (indexOf_Some _ _ _ Hto) as Hto'.
  assert (Hperm : ResultsTable.splice_in toIndex dragged (delete fromIndex fields)
                  ≡ₚ fields).
  { unfold ResultsTable.splice_in. rewrite <- Permutation_middle, take_drop.
    symmetry. by apply delete_Permutation. }
  exists dragged, toIndex. repeat split; try done.
  - unfold ResultsTable.splice_in.
    assert (toIndex ≤ length (delete fromIndex fields)) as Hle.
    { apply lookup_lt_Some in Hto'. rewrite length_delete by eauto. lia. }
    rewrite <- (length_take_le (delete fromIndex fields) toIndex) at 1 by done.
    apply list_lookup_middle. done.
  - intros Hnd. by rewrite Hperm.
Qed.

(** ** Case and white space in the customer key *)

Lemma append_cons (c : ascii) (a b : string) : String c a +:+ b = String c (a +:+ b).
Proof. reflexivity. Qed.

Lemma append_nil_r (a : string) : a +:+ "" = a.
Proof. induction a as [|c a IH]; [done|]. by rewrite append_cons, IH. Qed.

Lemma append_assoc (a b c : string) : (a +:+ b) +:+ c = a +:+ (b +:+ c).
Proof. induction a as [|x a IH]; [done|]. by rewrite !append_cons, IH. Qed.

Lemma rev_app_append (s1 s2 : string) :
  String.rev_app s1 s2 = String.rev s1 +:+ s2.
Proof.
  unfold String.rev. revert s2. induction s1 as [|c s1 IH]; intros s2; simpl; [done|].
  rewrite (IH (String c s2)), (IH (String c "")), append_assoc. done.
Qed.

Lemma rev_cons (c : ascii) (s : string) :
  String.rev (String c s) = String.rev s +:+ String c "".
Proof. unfold String.rev at 1. simpl. apply rev_app_append. Qed.

Lemma rev_append (a b : string) :
  String.rev (a +:+ b) = String.rev b +:+ String.rev a.
Proof.
  induction a as [|c a IH].
  - by rewrite append_nil_r.
  - by rewrite append_cons, !rev_cons, IH, append_assoc.
Qed.

Lemma white_space_strip (w s : string) :
  w ∈ white_space →
  Js.strip false (w +:+ s) = Js.strip false s ∧
  Js.strip true (String.rev w +:+ s) = Js.strip true s.
Proof.
  intros Hw. apply list_elem_of_In in Hw. vm_compute in Hw.
  repeat (destruct Hw as [<-|Hw]; [split; reflexivity|]). done.
Qed.

Lemma white_space_starts (w : string) :
  w ∈ white_space → ∃ x w', w = String x w' ∧ continuation x = false.
Proof.
  intros Hw. apply list_elem_of_In in Hw. vm_compute in Hw.
  repeat (destruct Hw as [<-|Hw]; [by eexists _, _|]). done.
Qed.

Lemma white_space2_continuation (a b : ascii) :
  Js.white_space2 a b = true → continuation b = true.
Proof.
  unfold Js.white_space2, continuation, Js.in_range.
  rewrite !andb_true_iff, !N.leb_le. lia.
Qed.

Lemma white_space3_continuation (a b c : ascii) :
  Js.white_space3 a b c = true → continuation b = true ∧ continuation c = true.
Proof.
  unfold Js.white_space3, continuation, Js.in_range.
  rewrite !orb_true_iff, !andb_true_iff, !orb_true_iff, !andb_true_iff, !N.leb_le. lia.
Qed.

Lemma blank_nil : blank "".
Proof. exists []. by split. Qed.

Lemma blank_strip (p s : string) :
  blank p → Js.strip false (p +:+ s) = Js.strip false s.
Proof.
  intros (chars & Hchars & ->).
  induction Hchars as [|w chars Hw _ IH]; [done|]. simpl.
  rewrite append_assoc. by rewrite (proj1 (white_space_strip w _ Hw)).
Qed.

Lemma blank_strip_backwards (p s : string) :
  blank p → Js.strip true (String.rev p +:+ s) = Js.strip true s.
Proof.
  intros (chars & Hchars & ->). revert s.
  induction Hchars as [|w chars Hw _ IH]; intros s; [done|]. simpl.
  rewrite rev_append, append_assoc, IH.
  apply (white_space_strip w s Hw).
Qed.

Lemma blank_trimStart (p : string) : blank p → Js.strip false p = "".
Proof.
  intros Hp. rewrite <- (append_nil_r p). by rewrite blank_strip.
Qed.

Lemma blank_starts (p : string) :
  blank p → p = "" ∨ ∃ x p', p = String x p' ∧ continuation x = false.
Proof.
  intros (chars & Hchars & ->).
  destruct Hchars as [|w chars Hw _]; [by left|]. right. simpl.
  destruct (white_space_starts w Hw) as (x & w' & -> & Hx).
  by eexists _, _.
Qed.

(** White space put after a text that is not all white space is not
    reached from the front. *)
Lemma strip_append (p : string) :
  blank p → ∀ n t, String.length t ≤ n →
  Js.strip false (t +:+ p)
  = if decide (Js.strip false t = "") then "" else Js.strip false t +:+ p.
Proof.
  intros Hp.
  assert (Hws2 : ∀ a x p', p = String x p' → Js.white_space2 a x = false).
  { intros a x p' ->. apply not_true_is_false. intros Hx%white_space2_continuation.
    destruct (blank_starts _ Hp) as [|(? & ? & [= <- <-] & ?)]; congruence. }
  assert (Hws3 : ∀ a b x p', p = String x p' → Js.white_space3 a b x = false).
  { intros a b x p' ->. apply not_true_is_false.
    intros [_ Hx]%white_space3_continuation.
    destruct (blank_starts _ Hp) as [|(? & ? & [= <- <-] & ?)]; congruence. }
  assert (Hws3' : ∀ a x c p', p = String x p' → Js.white_space3 a x c = false).
  { intros a x c p' ->. apply not_true_is_false.
    intros [Hx _]%white_space3_continuation.
    destruct (blank_starts _ Hp) as [|(? & ? & [= <- <-] & ?)]; congruence. }
  induction n as [|n IH]; intros t Hlen.
  { destruct t; [|simpl in Hlen; lia].
    change ("" +:+ p) with p. by rewrite (blank_trimStart p Hp). }
  destruct t as [|a t1].
  { change ("" +:+ p) with p. by rewrite (blank_trimStart p Hp). }
  simpl in Hlen. rewrite append_cons.
  destruct (Ascii.is_space a) eqn:Ha.
  { simpl. rewrite Ha. apply IH. lia. }
  destruct t1 as [|b t2].
  { change ("" +:+ p) with p. simpl. rewrite Ha, decide_False by done.
    destruct p as [|x p'] eqn:Hpeq; [done|].
    rewrite (Hws2 a x p' eq_refl).
    destruct p' as [|y p'']; [done|]. by rewrite (Hws3' a x y _ eq_refl). }
  simpl in Hlen. rewrite append_cons.
  destruct (Js.white_space2 a b) eqn:Hab.
  { simpl. rewrite Ha, Hab. apply IH. lia. }
  destruct t2 as [|c t3].
  { change ("" +:+ p) with p. simpl. rewrite Ha, Hab, decide_False by done.
    destruct p as [|x p'] eqn:Hpeq; [done|].
    by rewrite (Hws3 a b x p' eq_refl). }
  simpl in Hlen. rewrite append_cons.
  destruct (Js.white_space3 a b c) eqn:Habc.
  { simpl. rewrite Ha, Hab, Habc. apply IH. lia. }
  simpl. rewrite Ha, Hab, Habc. by rewrite decide_False.
Qed.

Lemma trimEnd_append_blank (s post : string) :
  blank post → Js.trimEnd (s +:+ post) = Js.trimEnd s.
Proof.
  intros Hpost. unfold Js.trimEnd.
  by rewrite rev_append, blank_strip_backwards.
Qed.

(** [trim] strips the white space of ECMAScript on both sides. *)
Lemma trim_padded (pre a post : string) :
  blank pre → blank post → Js.trim (pre +:+ a +:+ post) = Js.trim a.
Proof.
  intros Hpre Hpost. unfold Js.trim, Js.trimStart.
  rewrite blank_strip by done.
  rewrite (strip_append post Hpost (String.length a) a) by done.
  destruct (decide (Js.strip false a = "")) as [->|Hne]; [done|].
  by apply trimEnd_append_blank.
Qed.

Lemma byte_lower_char (c : ascii) :
  Js.byte (Js.lower_char c)
  = if Js.in_range 65 90 c then (Js.byte c + 32)%N else Js.byte c.
Proof.
  unfold Js.lower_char, Js.in_range, Js.byte.
  destruct (_ && _) eqn:Hc; [|done].
  apply andb_true_iff in Hc as [_ Hc%N.leb_le].
  apply N_ascii_embedding. lia.
Qed.

Lemma in_range_lower_char (lo hi : N) (c : ascii) :
  (128 ≤ lo)%N → Js.in_range lo hi (Js.lower_char c) = Js.in_range lo hi c.
Proof.
  intros Hlo. unfold Js.in_range at 1. rewrite byte_lower_char.
  unfold Js.in_range.
  destruct (65 <=? Js.byte c)%N eqn:H1, (Js.byte c <=? 90)%N eqn:H2; simpl; try done.
  apply N.leb_le in H1, H2.
  rewrite (proj2 (N.leb_gt lo (Js.byte c + 32))) by lia.
  by rewrite (proj2 (N.leb_gt lo (Js.byte c))) by lia.
Qed.

Lemma is_space_lower_char (c : ascii) :
  Ascii.is_space (Js.lower_char c) = Ascii.is_space c.
Proof. by destruct c as [[] [] [] [] [] [] [] []]. Qed.

Lemma white_space_lower_char (a b c : ascii) :
  Js.white_space2 (Js.lower_char a) (Js.lower_char b) = Js.white_space2 a b ∧
  Js.white_space3 (Js.lower_char a) (Js.lower_char b) (Js.lower_char c)
  = Js.white_space3 a b c.
Proof.
  unfold Js.white_space2, Js.white_space3.
  by rewrite !in_range_lower_char by lia.
Qed.

Lemma ascii_lower_append (a b : string) :
  Js.ascii_lower (a +:+ b) = Js.ascii_lower a +:+ Js.ascii_lower b.
Proof. induction a as [|c a IH]; [done|]. rewrite append_cons. simpl. by rewrite IH. Qed.

Lemma ascii_lower_rev (s : string) :
  Js.ascii_lower (String.rev s) = String.rev (Js.ascii_lower s).
Proof.
  induction s as [|c s IH]; [done|].
  simpl. by rewrite !rev_cons, ascii_lower_append, IH.
Qed.

Lemma strip_unfold (backwards : bool) (a : ascii) (s1 : string) :
  Js.strip backwards (String a s1)
  = if Ascii.is_space a then Js.strip backwards s1
    else
      match s1 with
      | EmptyString => String a s1
      | String b s2 =>
          if (if backwards then Js.white_space2 b a else Js.white_space2 a b)
          then Js.strip backwards s2
          else
            match s2 with
            | EmptyString => String a s1
            | String c s3 =>
                if (if backwards then Js.white_space3 c b a
                    else Js.white_space3 a b c)
                then Js.strip backwards s3
                else String a s1
            end
      end.
Proof. by destruct s1 as [|b [|c s3]]. Qed.

Lemma ascii_lower_strip (backwards : bool) (n : nat) (s : string) :
  String.length s ≤ n →
  Js.ascii_lower (Js.strip backwards s) = Js.strip backwards (Js.ascii_lower s).
Proof.
  revert s. induction n as [|n IH]; intros s Hlen.
  { destruct s; [done|simpl in Hlen; lia]. }
  destruct s as [|a s1]; [done|]. simpl in Hlen.
  cbn [Js.ascii_lower]. rewrite !strip_unfold, is_space_lower_char.
  destruct (Ascii.is_space a); [apply IH; lia|].
  destruct s1 as [|b s2]; [done|]. simpl in Hlen. cbn [Js.ascii_lower].
  destruct (white_space_lower_char a b a) as [-> _].
  destruct (white_space_lower_char b a a) as [-> _].
  destruct (if backwards then _ else _); [apply IH; lia|].
  destruct s2 as [|c s3]; [done|]. simpl in Hlen. cbn [Js.ascii_lower].
  destruct (white_space_lower_char a b c) as [_ ->].
  destruct (white_space_lower_char c b a) as [_ ->].
  destruct (if backwards then _ else _); [apply IH; lia|done].
Qed.

Lemma ascii_lower_trim (s : string) :
  Js.ascii_lower (Js.trim s) = Js.trim (Js.ascii_lower s).
Proof.
  unfold Js.trim, Js.trimEnd, Js.trimStart.
  rewrite ascii_lower_rev, (ascii_lower_strip true _ _ (Nat.le_refl _)).
  rewrite ascii_lower_rev, (ascii_lower_strip false _ _ (Nat.le_refl _)). done.
Qed.

Lemma is_ascii_append (a b : string) :
  Js.is_ascii (a +:+ b) = Js.is_ascii a && Js.is_ascii b.
Proof.
  induction a as [|c a IH]; [done|]. rewrite append_cons. simpl.
  by rewrite IH, andb_assoc.
Qed.

Lemma is_ascii_rev (s : string) : Js.is_ascii (String.rev s) = Js.is_ascii s.
Proof.
  induction s as [|c s IH]; [done|].
  rewrite rev_cons, is_ascii_append, IH. simpl.
  by rewrite andb_true_r, andb_comm.
Qed.

Lemma is_ascii_strip (backwards : bool) (n : nat) (s : string) :
  String.length s ≤ n → Js.is_ascii s = true →
  Js.is_ascii (Js.strip backwards s) = true.
Proof.
  revert s. induction n as [|n IH]; intros s Hlen Hs.
  { destruct s; [done|simpl in Hlen; lia]. }
  destruct s as [|a s1]; [done|]. simpl in Hlen.
  rewrite strip_unfold.
  pose proof Hs as Hs1. cbn [Js.is_ascii] in Hs1.
  apply andb_true_iff in Hs1 as [_ Hs1].
  destruct (Ascii.is_space a); [apply IH; [lia|done]|].
  destruct s1 as [|b s2]; [done|]. simpl in Hlen.
  pose proof Hs1 as Hs2. cbn [Js.is_ascii] in Hs2.
  apply andb_true_iff in Hs2 as [_ Hs2].
  destruct (if backwards then _ else _); [apply IH; [lia|done]|].
  destruct s2 as [|c s3]; [done|]. simpl in Hlen.
  pose proof Hs2 as Hs3. cbn [Js.is_ascii] in Hs3.
  apply andb_true_iff in Hs3 as [_ Hs3].
  destruct (if backwards then _ else _); [apply IH; [lia|done]|done].
Qed.

Lemma is_ascii_trim (s : string) : Js.is_ascii s = true → Js.is_ascii (Js.trim s) = true.
Proof.
  intros Hs. unfold Js.trim, Js.trimEnd, Js.trimStart.
  rewrite is_ascii_rev. apply (is_ascii_strip true _ _ (Nat.le_refl _)).
  rewrite is_ascii_rev. by apply (is_ascii_strip false _ _ (Nat.le_refl _)).
Qed.

Section customer_key.
Context `{!Js.Engine}.

(** On a text written in ASCII, lower-casing and trimming commute. *)
Lemma toLowerCase_trim_ascii (s : string) :
  Js.is_ascii s = true → Js.toLowerCase (Js.trim s) = Js.trim (Js.ascii_lower s).
Proof.
  intros Hs. rewrite Js.toLowerCase_ascii by by apply is_ascii_trim.
  apply ascii_lower_trim.
Qed.

(** X24. The group key ignores surrounding white space, that of Unicode
    included: if the customer text of one item is that of another with
    white space put before and after, both items have the same key. For
    customer texts written in ASCII the key ignores the case of the letters
    as well. *)
Theorem normalizedKey_ignores_case_and_padding (r : ExcelSummary.Roles)
    (item item' : ExtractedData) (pre core post : string) :
  ExcelSummary.customerText r item = pre +:+ core +:+ post →
  blank pre → blank post →
  (core = ExcelSummary.customerText r item' →
   ExcelSummary.normalizedKey r item = ExcelSummary.normalizedKey r item') ∧
  (Js.is_ascii core = true →
   Js.is_ascii (ExcelSummary.customerText r item') = true →
   Js.ascii_lower core = Js.ascii_lower (ExcelSummary.customerText r item') →
   ExcelSummary.normalizedKey r item = ExcelSummary.normalizedKey r item').
Proof.
  intros Htext Hpre Hpost. unfold ExcelSummary.normalizedKey.
  rewrite Htext, trim_padded by done. split.
  - by intros ->.
  - intros Hcore Hother Hsame.
    by rewrite !toLowerCase_trim_ascii, Hsame.
Qed.
End customer_key.

Section customer_key_samples.
#[local] Existing Instance Js.reference.

Lemma normalizedKey_ignores_case_and_padding_witness :
  let r := ExcelSummary.resolve ["Customer"] in
  let padded :=
    {| id := "id1"; fileName := "b.pdf"; status := Status.success;
       data := Some [("Customer", Js.VStr (utf8 [194; 160]%N +:+ "acme corp" +:+ " "))];
       error := None |} in
  let plain :=
    {| id := "id2"; fileName := "c.pdf"; status := Status.success;
       data := Some [("Customer", Js.VStr "ACME CORP")]; error := None |} in
  ExcelSummary.normalizedKey r padded = ExcelSummary.normalizedKey r plain.
Proof.
  intros r padded plain.
  apply (normalizedKey_ignores_case_and_padding r padded plain
           (utf8 [194; 160]%N) "acme corp" " ").
  - reflexivity.
  - exists [utf8 [194; 160]%N]. split; [|reflexivity].
    apply Forall_singleton. apply (bool_decide_unpack _). vm_compute. exact I.
  - exists [" "]. split; [|reflexivity].
    apply Forall_singleton. apply (bool_decide_unpack _). vm_compute. exact I.
  - reflexivity.
  - reflexivity.
  - reflexivity.
Defined.
End customer_key_samples.

(** ** The table filters *)

Section table_filters.
Context `{!Js.Engine}.

Lemma includes_empty (s : string) : Js.includes "" s = true.
Proof. by destruct s. Qed.

Lemma every_no_filter (item : ExtractedData) (fields : list string) :
  ResultsTable.every (ResultsTable.matchesColumn [] item) fields
  = if forallb (λ f, negb (JsObject.inherited f)) fields
    then Js.Normal true else Js.Throw "TypeError".
Proof.
  induction fields as [|f fields IH]; simpl; [done|].
  unfold ResultsTable.matchesColumn at 1, JsObject.Get. simpl.
  destruct (JsObject.inherited f); simpl; [done|exact IH].
Qed.

(** X25. With no filter typed anywhere the table shows every item, in
    Store order, provided no field is named like a member of
    [Object.prototype]; if one is and the Store is not empty, computing the
    visible rows throws a [TypeError]. *)
Theorem visibleData_no_filter (items : list ExtractedData) (fields : list string) :
  (Forall (λ f, JsObject.inherited f = false) fields →
   ResultsTable.visibleData items "" [] fields = Js.Normal items) ∧
  (Exists (λ f, JsObject.inherited f = true) fields → items ≠ [] →
   ResultsTable.visibleData items "" [] fields = Js.Throw "TypeError").
Proof.
  unfold ResultsTable.visibleData. split.
  - intros Hok.
    assert (Hall : forallb (λ f, negb (JsObject.inherited f)) fields = true).
    { apply forallb_forall. intros f Hin%list_elem_of_In.
      rewrite Forall_forall in Hok. by rewrite (Hok f Hin). }
    induction items as [|item items IH]; simpl; [done|].
    unfold ResultsTable.visible at 1.
    rewrite every_no_filter, Hall. simpl.
    rewrite (Js.toLowerCase_ascii "") by done. simpl.
    by rewrite includes_empty, IH.
  - intros Hbad Hne.
    assert (Hall : forallb (λ f, negb (JsObject.inherited f)) fields = false).
    { apply not_true_is_false. intros Hall.
      apply Exists_exists in Hbad as (f & Hin & Hf).
      rewrite forallb_forall in Hall. apply list_elem_of_In in Hin.
      specialize (Hall f Hin). by rewrite Hf in Hall. }
    destruct items as [|item items]; [done|]. simpl.
    unfold ResultsTable.visible at 1. by rewrite every_no_filter, Hall.
Qed.

Lemma filter_items_sound {A} (f : A → Js.Completion bool) (l shown : list A) :
  ResultsTable.filter_items f l = Js.Normal shown →
  shown `sublist_of` l ∧ Forall (λ x, f x = Js.Normal true) shown.
Proof.
  revert shown. induction l as [|x l IH]; intros shown; simpl.
  - by intros [= <-].
  - destruct (f x) as [b|e] eqn:Hx; simpl; [|done].
    destruct (ResultsTable.filter_items f l) as [rest|e]; simpl; [|done].
    destruct (IH rest eq_refl) as [Hsub Hall].
    destruct b; intros [= <-].
    + split; [by constructor|by constructor].
    + split; [by constructor|done].
Qed.

(** X26. Whatever is typed in the filters, the rows shown are items of
    the Store in Store order, the lower-cased file name of each contains
    the lower-cased filter text, and typing the filter text in another case
    shows the same rows. *)
Theorem visibleData_filters (items shown : list ExtractedData) (filter : string)
    (columnFilters : JsObject.t string) (fields : list string) :
  ResultsTable.visibleData items filter columnFilters fields = Js.Normal shown →
  shown `sublist_of` items ∧
  Forall (λ item, Js.includes (Js.toLowerCase filter)
                    (Js.toLowerCase (fileName item)) = true) shown ∧
  ∀ filter', Js.toLowerCase filter' = Js.toLowerCase filter →
    ResultsTable.visibleData items filter' columnFilters fields = Js.Normal shown.
Proof.
  intros Hrun. unfold ResultsTable.visibleData in *.
  destruct (filter_items_sound _ _ _ Hrun) as [Hsub Hall].
  split; [done|]. split.
  - eapply Forall_impl; [exact Hall|]. intros item Hvis. simpl in Hvis.
    unfold ResultsTable.visible in Hvis.
    destruct (ResultsTable.every _ fields) as [b|]; simpl in Hvis; [|done].
    injection Hvis as Hvis. by apply andb_prop in Hvis as [? _].
  - intros filter' Hcase. rewrite <- Hrun. f_equal.
    unfold ResultsTable.visible. by rewrite Hcase.
Qed.
End table_filters.

(** The filters on sample records, with the reference engine. *)

Section table_filters_samples.
#[local] Existing Instance Js.reference.

Lemma visibleData_no_filter_witness :
  ResultsTable.visibleData Sample.extracted "" [] ["Invoice Number"; "Total Amount"; "Date"]
  = Js.Normal Sample.extracted.
Proof.
  apply (visibleData_no_filter Sample.extracted
           ["Invoice Number"; "Total Amount"; "Date"]).
  repeat constructor.
Defined.

Lemma visibleData_filters_witness :
  ResultsTable.visibleData Sample.extracted "A.PDF" []
    ["Invoice Number"; "Total Amount"; "Date"]
  = Js.Normal [ {| id := "id0"; fileName := "a.pdf"; status := Status.success;
                   data := Some (Sample.invoice "7"); error := None |} ].
Proof.
  apply (visibleData_filters Sample.extracted _ "a.pdf" []
           ["Invoice Number"; "Total Amount"; "Date"]).
  - reflexivity.
  - reflexivity.
Defined.
End table_filters_samples.

(** ** The extraction service *)

Section gemini.
Context {World : Type} `{!GeminiService.Remote World}.
Context (random : World → string * World).

Lemma extraction_loop_no_key (flds : list string) (rest : list File) :
  ∀ done todo st w log,
    length todo = length rest →
    App.results st = done ++ todo →
    let r := App.extraction_loop (Services0 := GeminiService.services "" random)
               flds rest (length done) (done ++ todo) st w log in
    App.world r = w ∧
    App.results (App.state r)
    = done ++ (committed (Threw (Some "API Key is missing")) <$> todo).
Proof.
  induction rest as [|file rest IH]; intros done todo st w log Hlen Hres.
  - destruct todo; [|done]. simpl. by rewrite Hres.
  - destruct todo as [|item todo]; [done|]. simpl.
    rewrite !alter_middle.
    set (it' := App.settle _ (with_status Status.processing item)).
    set (st' := App.setResults (done ++ it' :: todo) _).
    destruct (IH (done ++ [it']) todo st' w
                (log ++ [(file, flds, Threw (Some "API Key is missing"))]))
      as (Hw & Hresults).
    { by simplify_eq/=. }
    { subst st'. simpl. by rewrite <- app_assoc. }
    replace (length (done ++ [it'])) with (S (length done)) in *
      by (rewrite length_app; simpl; lia).
    replace ((done ++ [it']) ++ todo) with (done ++ it' :: todo) in *
      by (by rewrite <- app_assoc).
    split; [exact Hw|]. by rewrite Hresults, <- app_assoc.
Qed.

(** X27. Without an API key a run fails every document: each item ends
    in state [error] with the text [API Key is missing] and no data, there
    is one item per document, and neither the file reader nor the remote
    model is used: the outside world is as the generation of the
    identifiers left it. *)
Theorem startExtraction_without_api_key (st : App.State) (w : World) :
  App.files st ≠ [] → App.fields st ≠ [] →
  let r := App.startExtraction (Services0 := GeminiService.services "" random) st w in
  length (App.results (App.state r)) = length (App.files st) ∧
  Forall (λ item, status item = Status.error ∧
                  error item = Some "API Key is missing" ∧ data item = None)
    (App.results (App.state r)) ∧
  App.world r
  = (App.initialResults (Services0 := GeminiService.services "" random)
       (App.files st) w).2.
Proof.
  intros Hfiles Hfields. unfold App.startExtraction.
  rewrite !bool_decide_eq_false_2, orb_false_l
    by (rewrite length_zero_iff_nil; done).
  unfold App.prepare. simpl.
  pose proof (initialResults_spec (Services0 := GeminiService.services "" random)
                (App.files st) w) as Hinit.
  destruct (App.initialResults (App.files st) w) as [initial w1]. simpl in Hinit.
  set (st1 := match initial with _ :: _ => _ | [] => _ end).
  destruct (extraction_loop_no_key (App.fields st) (App.files st) [] initial st1 w1 [])
    as (Hw & Hres).
  { symmetry. by eapply Forall2_length. }
  { subst st1. by destruct initial. }
  simpl in Hw, Hres. simpl. rewrite Hw, Hres. split; [|split; [|done]].
  - rewrite length_fmap. symmetry. by eapply Forall2_length.
  - apply Forall_fmap. clear -Hinit.
    induction Hinit as [|file item fs initial [ident ->] _ IH]; by constructor.
Qed.
End gemini.

Lemma startExtraction_without_api_key_witness :
  let r := App.startExtraction
             (Services0 := GeminiService.services "" Offline.random)
             Sample.two_files 0 in
  Forall (λ item, status item = Status.error ∧
                  error item = Some "API Key is missing" ∧ data item = None)
    (App.results (App.state r)) ∧
  App.world r = 2.
Proof.
  destruct (startExtraction_without_api_key Offline.random Sample.two_files 0)
    as (_ & Hall & Hw).
  - vm_compute. congruence.
  - vm_compute. congruence.
  - split; [exact Hall|]. rewrite Hw. reflexivity.
Defined.

(** ** Adding files, when the names are distinct *)

(** X29. [handleFilesSelected] keeps the files already listed, in order
    and in front, and appends the incoming files whose name is not listed
    yet; when the listed names are pairwise distinct and so are the incoming
    names, the names of the new list are pairwise distinct. *)
Theorem handleFilesSelected_distinct (newFiles : list File) (st : App.State) :
  NoDup (name <$> App.files st) → NoDup (name <$> newFiles) →
  App.files st `prefix_of` App.files (App.handleFilesSelected newFiles st) ∧
  NoDup (name <$> App.files (App.handleFilesSelected newFiles st)) ∧
  (∀ f, f ∈ newFiles →
        name f ∈ name <$> App.files (App.handleFilesSelected newFiles st)).
Proof.
  intros Hold Hnew. unfold App.handleFilesSelected. simpl.
  set (fresh := filter _ newFiles).
  assert (Hfresh : ∀ f, f ∈ fresh ↔ f ∈ newFiles ∧ name f ∉ name <$> App.files st).
  { intros f. unfold fresh. rewrite list_elem_of_filter, elem_of_list_to_set. tauto. }
  split; [by eexists|]. split.
  - rewrite fmap_app. apply NoDup_app. split; [done|]. split.
    + intros n Hn (f & -> & Hf)%list_elem_of_fmap. apply Hfresh in Hf as [_ Hf].
      by apply Hf.
    + unfold fresh. clear Hfresh fresh.
      induction newFiles as [|f fs IH]; [constructor|].
      apply NoDup_cons in Hnew as [Hf Hfs]. rewrite filter_cons.
      destruct (decide _); [|by apply IH]. csimpl. apply NoDup_cons.
      split; [|by apply IH].
      intros (g & Hg & Hin%list_elem_of_filter)%list_elem_of_fmap.
      apply Hf. apply list_elem_of_fmap. exists g. by destruct Hin.
  - intros f Hin. rewrite fmap_app, elem_of_app.
    destruct (decide (name f ∈ name <$> App.files st)) as [?|Hnot]; [by left|].
    right. apply list_elem_of_fmap_2. by apply Hfresh.
Qed.

Lemma handleFilesSelected_distinct_witness :
  NoDup (name <$> App.files (App.handleFilesSelected [Sample.a_pdf; Sample.b_pdf]
                               (App.handleFilesSelected [Sample.a_pdf] App.initial))).
Proof.
  apply (handleFilesSelected_distinct [Sample.a_pdf; Sample.b_pdf]
           (App.handleFilesSelected [Sample.a_pdf] App.initial)).
  - apply (bool_decide_unpack _). vm_compute. exact I.
  - apply (bool_decide_unpack _). vm_compute. exact I.
Defined.
